(** * Survive or Die (story mode): the run state machine, verified

    A shallow embedding of [Survive-Die.py]: the [Player] record, the four
    stage resolvers and the boss resolution, the checkpoint store, the result
    log and the [main] sequencer.

    Numbers are the program's own: [hp], [score] and [stage] are Python
    integers ([Z]); luck values and the final score are binary64 floats
    (Rocq's primitive floats, the same IEEE 754 format as Python's [float]),
    so every threshold comparison is the one the interpreter performs.

    Effects are threaded through a state-and-exception monad over a [World]:
    the lines waiting on standard input, the pseudo-random generator, the two
    files and the faults the operating system may answer with.  What the
    program prints is left out, except the coloured outcome line of a stage,
    which is kept in a ghost trace together with the stage that produced it.

    Scope.  Input lines are ASCII text.  [json.load] is taken as the
    inverse of [json.dump] on the documents the program writes, so the
    checkpoint file holds a JSON document or bytes that do not parse.  The
    stage functions are embedded for well-typed players; a checkpoint whose
    fields have other JSON types is loaded as Python loads it
    ([load_checkpoint] returns the object) and the run is not followed
    further ([Untyped]). *)

From Stdlib Require Import ZArith Floats Ascii String DecimalString.
From stdpp Require Import gmap strings list.

Set Warnings "-inexact-float,-register-all".

Local Open Scope string_scope.
Local Open Scope Z_scope.

(** ** Python builtins used by the program (on ASCII text) *)

Module Py.

(** [str.isspace] on the ASCII range: tab, newline, vertical tab, form
    feed, carriage return, the four separators 0x1c-0x1f and the space. *)
Definition isspace (c : ascii) : bool :=
  let n := nat_of_ascii c in
  ((9 <=? n)%nat && (n <=? 13)%nat) || ((28 <=? n)%nat && (n <=? 32)%nat).

Fixpoint lstrip_chars (l : list ascii) : list ascii :=
  match l with
  | c :: l' => if isspace c then lstrip_chars l' else l
  | [] => []
  end.

(** [s.strip()] *)
Definition strip (s : string) : string :=
  string_of_list_ascii
    (rev (lstrip_chars (rev (lstrip_chars (list_ascii_of_string s))))).

Definition lower_char (c : ascii) : ascii :=
  let n := nat_of_ascii c in
  if ((65 <=? n)%nat && (n <=? 90)%nat) then ascii_of_nat (n + 32) else c.

(** [s.lower()] *)
Definition lower (s : string) : string :=
  string_of_list_ascii (lower_char <$> list_ascii_of_string s).

(** [s.startswith(prefix)] *)
Definition startswith (s prefix : string) : bool := String.prefix prefix s.

Definition digit_value (c : ascii) : option Z :=
  let n := nat_of_ascii c in
  if ((48 <=? n)%nat && (n <=? 57)%nat) then Some (Z.of_nat n - 48) else None.

(** The digit part of a decimal literal: digits, with single underscores
    allowed between two digits. *)
Fixpoint digits (acc : Z) (after_digit : bool) (l : list ascii) : option Z :=
  match l with
  | [] => if after_digit then Some acc else None
  | c :: l' =>
      match digit_value c with
      | Some d => digits (acc * 10 + d) true l'
      | None =>
          if Ascii.eqb c "_"%char
          then (if after_digit then digits acc false l' else None)
          else None
      end
  end.

(** [int(s)] in base ten; [None] stands for [ValueError]. *)
Definition int (s : string) : option Z :=
  match list_ascii_of_string (strip s) with
  | c :: l =>
      if Ascii.eqb c "-"%char then Z.opp <$> digits 0 false l
      else if Ascii.eqb c "+"%char then digits 0 false l
      else digits 0 false (c :: l)
  | [] => None
  end.

(** [str(n)] for an integer. *)
Definition str (n : Z) : string := NilZero.string_of_int (Z.to_int n).

(** [input().strip().lower().startswith("y")], the yes/no prompts. *)
Definition says_yes (line : string) : bool := startswith (lower (strip line)) "y".

(** [float(n)] as done by [int + float]: round to nearest even on 53 bits;
    [None] stands for [OverflowError] (the integer is too large). *)
Definition float_of_int (n : Z) : option float :=
  match SpecFloat.binary_normalize 53 1024 n 0 false with
  | S754_infinity _ | S754_nan => None
  | sf => Some (SF2Prim sf)
  end.

(** [int(f)] for a float: truncation towards zero; [None] stands for the
    [OverflowError] / [ValueError] raised on infinities and NaN. *)
Definition int_of_float (f : float) : option Z :=
  match Prim2SF f with
  | S754_zero _ => Some 0
  | S754_finite s m e =>
      let mag := if (0 <=? e) then Z.pos m * 2 ^ e else Z.pos m / 2 ^ (- e) in
      Some (if s then - mag else mag)
  | S754_infinity _ | S754_nan => None
  end.

End Py.

(** ** The Player record *)

(** A [Player] as the program builds and updates it: [Player(name, lang)]
    followed by the stage functions.  [char] is [None] until [intro] runs. *)
Record Player := mkPlayer {
  name : string;
  hp : Z;
  score : Z;
  char : option string;
  inventory : list string;
  lang : string;
  stage : Z;
}.

(** [Player.__init__] *)
Definition new_player (name lang : string) : Player :=
  {| name := name; hp := 3; score := 0; char := None; inventory := [];
     lang := lang; stage := 0 |}.

Definition set_hp (v : Z) (p : Player) : Player :=
  mkPlayer (name p) v (score p) (char p) (inventory p) (lang p) (stage p).
Definition set_score (v : Z) (p : Player) : Player :=
  mkPlayer (name p) (hp p) v (char p) (inventory p) (lang p) (stage p).
Definition set_char (v : option string) (p : Player) : Player :=
  mkPlayer (name p) (hp p) (score p) v (inventory p) (lang p) (stage p).
Definition set_inventory (v : list string) (p : Player) : Player :=
  mkPlayer (name p) (hp p) (score p) (char p) v (lang p) (stage p).
Definition set_lang (v : string) (p : Player) : Player :=
  mkPlayer (name p) (hp p) (score p) (char p) (inventory p) v (stage p).
Definition set_stage (v : Z) (p : Player) : Player :=
  mkPlayer (name p) (hp p) (score p) (char p) (inventory p) (lang p) v.

(** [player.char in (n1, n2, ...)]: [None] equals no string. *)
Definition char_in (p : Player) (names : list string) : bool :=
  match char p with
  | Some c => bool_decide (c ∈ names)
  | None => false
  end.

(** [item in player.inventory] *)
Definition has_item (item : string) (p : Player) : bool :=
  bool_decide (item ∈ inventory p).

(** ** JSON documents and the dictionary form of a player *)

(** What [json.load] can return. *)
Inductive json :=
| JNull
| JBool (b : bool)
| JInt (n : Z)
| JFloat (f : float)
| JStr (s : string)
| JArr (l : list json)
| JObj (o : gmap string json).

(** [Player.to_dict] *)
Definition to_dict (p : Player) : gmap string json :=
  <["name" := JStr (name p)]>
  (<["hp" := JInt (hp p)]>
  (<["score" := JInt (score p)]>
  (<["char" := match char p with Some c => JStr c | None => JNull end]>
  (<["inventory" := JArr (JStr <$> inventory p)]>
  (<["lang" := JStr (lang p)]>
  (<["stage" := JInt (stage p)]> ∅)))))).

(** The object [Player.from_dict] returns: its attributes hold whatever the
    dictionary held, of any JSON type. *)
Record Stored := mkStored {
  s_name : json;
  s_hp : json;
  s_score : json;
  s_char : json;
  s_inventory : json;
  s_lang : json;
  s_stage : json;
}.

(** [d.get(key, dflt)] *)
Definition get (d : gmap string json) (key : string) (dflt : json) : json :=
  default dflt (d !! key).

(** [Player.from_dict] *)
Definition from_dict (d : gmap string json) : Stored :=
  {| s_name := get d "name" (JStr "player");
     s_lang := get d "lang" (JStr "en");
     s_hp := get d "hp" (JInt 3);
     s_score := get d "score" (JInt 0);
     s_char := get d "char" JNull;
     s_inventory := get d "inventory" (JArr []);
     s_stage := get d "stage" (JInt 0) |}.

(** The stored object of a well-typed player. *)
Definition stored_of (p : Player) : Stored :=
  {| s_name := JStr (name p);
     s_hp := JInt (hp p);
     s_score := JInt (score p);
     s_char := match char p with Some c => JStr c | None => JNull end;
     s_inventory := JArr (JStr <$> inventory p);
     s_lang := JStr (lang p);
     s_stage := JInt (stage p) |}.

Definition as_str (j : json) : option string :=
  match j with JStr s => Some s | _ => None end.
Definition as_int (j : json) : option Z :=
  match j with JInt n => Some n | _ => None end.

(** The stored objects the typed embedding covers: strings for [name] and
    [lang], integers for [hp], [score] and [stage], a string or null for
    [char], a list of strings for [inventory].  Every checkpoint the program
    writes is of this shape. *)
Definition typed (s : Stored) : option Player :=
  n ← as_str (s_name s);
  h ← as_int (s_hp s);
  sc ← as_int (s_score s);
  c ← match s_char s with
       | JNull => Some None
       | JStr c => Some (Some c)
       | _ => None
       end;
  inv ← match s_inventory s with
         | JArr l => mapM as_str l
         | _ => None
         end;
  lg ← as_str (s_lang s);
  st ← as_int (s_stage s);
  Some (mkPlayer n h sc c inv lg st).

(** ** The world the program runs in *)

(** Exceptions the modelled code can raise; all derive from [Exception]. *)
Inductive exn :=
| EOFError | OSError | JSONDecodeError | AttributeError | OverflowError | ValueError.

(** Result of a computation: a value, an exception, or [Untyped] when a
    record read back from disk has an attribute of a JSON type the typed
    [Player] does not cover (the embedding stops following the run there). *)
Inductive res (A : Type) :=
| Ok (a : A)
| Raise (e : exn)
| Untyped.
Arguments Ok {A} a.
Arguments Raise {A} e.
Arguments Untyped {A}.

Inductive color := FG_RED | FG_GREEN | FG_YELLOW.

(** The outcome line of a stage: the text and colour given to [type_text]. *)
Definition shown : Type := string * color.

Inductive Stage := Town | Desert | Lab | Forest | Boss.

(** Ghost trace of a run. *)
Inductive event :=
| EvStart (p : Player)
| EvIntro (p : Player)
| EvLevel (s : Stage) (choice : Z) (draw : float) (line : shown) (p : Player)
| EvBoss (choice : Z) (draw : float) (tag : string) (final_score : float) (p : Player)
| EvReload (p : Player).

(** System calls that can fail. *)
Inductive io_op := OpenWrite | WriteData | OpenRead | OpenAppend | AppendData | Remove.

(** Content of [sod_checkpoint.json]: a JSON document, or bytes that
    [json.load] rejects (an empty or truncated file included). *)
Inductive content := Garbage | Doc (j : json).

Record World := mkWorld {
  stdin : list string;            (* lines still to be read by [input()] *)
  rng : nat -> float;             (* the values [random.random()] will return *)
  drawn : nat;                    (* how many of them were consumed *)
  save_file : option content;     (* SAVE_FILENAME, [None] when absent *)
  results_file : list string;     (* lines of RESULTS_FILENAME *)
  faults : io_op -> bool;         (* [true]: the call fails with OSError *)
  clock : string;                 (* [datetime.utcnow().isoformat()] *)
  trace : list event;
}.

Definition set_stdin (v : list string) (w : World) : World :=
  mkWorld v (rng w) (drawn w) (save_file w) (results_file w) (faults w) (clock w) (trace w).
Definition set_drawn (v : nat) (w : World) : World :=
  mkWorld (stdin w) (rng w) v (save_file w) (results_file w) (faults w) (clock w) (trace w).
Definition set_save_file (v : option content) (w : World) : World :=
  mkWorld (stdin w) (rng w) (drawn w) v (results_file w) (faults w) (clock w) (trace w).
Definition set_results_file (v : list string) (w : World) : World :=
  mkWorld (stdin w) (rng w) (drawn w) (save_file w) v (faults w) (clock w) (trace w).
Definition set_trace (v : list event) (w : World) : World :=
  mkWorld (stdin w) (rng w) (drawn w) (save_file w) (results_file w) (faults w) (clock w) v.

(** State and exceptions. *)
Definition M (A : Type) : Type := World -> res A * World.

Definition ret {A} (a : A) : M A := fun w => (Ok a, w).

Definition bind {A B} (m : M A) (k : A -> M B) : M B :=
  fun w =>
    match m w with
    | (Ok a, w') => k a w'
    | (Raise e, w') => (Raise e, w')
    | (Untyped, w') => (Untyped, w')
    end.

Definition raise {A} (e : exn) : M A := fun w => (Raise e, w).

Definition untyped {A} : M A := fun w => (Untyped, w).

(** [try: body  except Exception: handler] *)
Definition try_except {A} (body : M A) (handler : exn -> M A) : M A :=
  fun w =>
    match body w with
    | (Raise e, w') => handler e w'
    | r => r
    end.

#[global] Instance M_ret : MRet M := @ret.
#[global] Instance M_bind : MBind M := fun A B k m => bind m k.

(** [input()] *)
Definition input : M string :=
  fun w =>
    match stdin w with
    | line :: rest => (Ok line, set_stdin rest w)
    | [] => (Raise EOFError, w)
    end.

(** [random.random()] *)
Definition random : M float :=
  fun w => (Ok (rng w (drawn w)), set_drawn (S (drawn w)) w).

Definition emit (e : event) : M unit :=
  fun w => (Ok tt, set_trace (trace w ++ [e]) w).

(** [os.path.exists(SAVE_FILENAME)] *)
Definition path_exists : M bool :=
  fun w => (Ok (match save_file w with Some _ => true | None => false end), w).

(** [open(SAVE_FILENAME, "w")]: the file is created or truncated. *)
Definition open_write : M unit :=
  fun w =>
    if faults w OpenWrite then (Raise OSError, w)
    else (Ok tt, set_save_file (Some Garbage) w).

(** [json.dump(d, f)] followed by closing [f]. *)
Definition json_dump (d : gmap string json) : M unit :=
  fun w =>
    if faults w WriteData then (Raise OSError, w)
    else (Ok tt, set_save_file (Some (Doc (JObj d))) w).

(** [open(SAVE_FILENAME, "r")] *)
Definition open_read : M content :=
  fun w =>
    if faults w OpenRead then (Raise OSError, w)
    else match save_file w with
         | Some c => (Ok c, w)
         | None => (Raise OSError, w)
         end.

(** [json.load(f)] *)
Definition json_load (c : content) : M json :=
  match c with
  | Doc j => mret j
  | Garbage => raise JSONDecodeError
  end.

(** [Player.from_dict(d)] on what [json.load] returned: only a dictionary
    has [get]. *)
Definition Player_from_dict (d : json) : M Stored :=
  match d with
  | JObj o => mret (from_dict o)
  | _ => raise AttributeError
  end.

(** [save_checkpoint] *)
Definition save_checkpoint (player : Player) : M bool :=
  try_except
    (open_write;; json_dump (to_dict player);; mret true)
    (fun _ => mret false).

(** [load_checkpoint] *)
Definition load_checkpoint : M (option Stored) :=
  try_except
    (present ← path_exists;
     if negb present then mret None
     else
       c ← open_read;
       d ← json_load c;
       s ← Player_from_dict d;
       mret (Some s))
    (fun _ => mret None).

(** [open(RESULTS_FILENAME, "a")] *)
Definition open_append : M unit :=
  fun w => if faults w OpenAppend then (Raise OSError, w) else (Ok tt, w).

(** [f.write(line)] on the results file: one line is appended (its
    terminating newline is left implicit). *)
Definition write_line (line : string) : M unit :=
  fun w =>
    if faults w AppendData then (Raise OSError, w)
    else (Ok tt, set_results_file (results_file w ++ [line]) w).

Definition utcnow_isoformat : M string := fun w => (Ok (clock w), w).

(** [int(final_score)]: [ValueError] on NaN, [OverflowError] on an infinity. *)
Definition int_of_score (f : float) : M Z :=
  match Py.int_of_float f with
  | Some n => mret n
  | None => raise (if PrimFloat.is_nan f then ValueError else OverflowError)
  end.

(** [str(player.char)] *)
Definition str_char (p : Player) : string :=
  match char p with Some c => c | None => "None" end.

(** [append_result] *)
Definition append_result (player : Player) (tag : string) (final_score : float) : M bool :=
  try_except
    (open_append;;
     now ← utcnow_isoformat;
     n ← int_of_score final_score;
     write_line (now +:+ " | " +:+ name player +:+ " | " +:+ str_char player
                 +:+ " | " +:+ tag +:+ " | Score:" +:+ Py.str n
                 +:+ " | HP:" +:+ Py.str (hp player));;
     mret true)
    (fun _ => mret false).

(** [os.remove(SAVE_FILENAME)] *)
Definition os_remove : M unit :=
  fun w =>
    if faults w Remove then (Raise OSError, w)
    else match save_file w with
         | Some _ => (Ok tt, set_save_file None w)
         | None => (Raise OSError, w)
         end.

(** ** The outcome resolvers *)

(** [x > y] and [x >= y] on floats. *)
Definition gt (x y : float) : bool := PrimFloat.ltb y x.
Definition ge (x y : float) : bool := PrimFloat.leb y x.

(** [player.score += pts] *)
Definition gain (pts : Z) (p : Player) : Player := set_score (score p + pts) p.
(** [player.inventory.append(item)] *)
Definition append_item (item : string) (p : Player) : Player :=
  set_inventory (inventory p ++ [item]) p.
(** [player.hp -= 1] *)
Definition lose_hp (p : Player) : Player := set_hp (hp p - 1) p.

(** The line [type_text(en if player.lang=="en" else ar, color=c)] prints. *)
Definition say (p : Player) (en ar : string) (c : color) : shown :=
  (if bool_decide (lang p = "en") then en else ar, c).

(** Town, lines 214-220: the draw plus the archetype bonus. *)
Definition town_luck (player : Player) (r : float) : float :=
  if char_in player ["Trickster"; ""] then (r + 0.15)%float
  else if char_in player ["Warrior"; ""] then (r + 0.05)%float
  else (r + 0.08)%float.

(** Town, lines 214-240. *)
Definition town_outcome (player : Player) (choice : Z) (r : float) : Player * shown :=
  let luck := town_luck player r in
  if choice =? 1 then
    if gt luck 0.5%float || char_in player ["Scholar"; ""] then
      let player := append_item "Canned Food" (gain 10 player) in
      (player, say player "You negotiated and got supplies. +10 pts" "  ! +10 " FG_GREEN)
    else
      let player := lose_hp player in
      (player, say player "Fight broke out. -1 HP" "   ." FG_RED)
  else if choice =? 2 then
    if gt luck 0.45%float then
      let player := append_item "Medkit" (gain 5 player) in
      (player, say player "You found medical supplies. +5 pts" "  . +5 " FG_GREEN)
    else
      let player := lose_hp player in
      (player, say player "A trap! -1 HP" "!  ." FG_RED)
  else
    let player := gain 1 player in
    (player, say player "You avoided danger. +1 pt" " . +1 " FG_YELLOW).

(** Desert, lines 263-265: the draw plus the Canned Food bonus. *)
Definition desert_luck (player : Player) (r : float) : float :=
  if has_item "Canned Food" player then (r + 0.1)%float else r.

(** Desert, lines 263-285. *)
Definition desert_outcome (player : Player) (choice : Z) (r : float) : Player * shown :=
  let luck := desert_luck player r in
  if choice =? 1 then
    if gt luck 0.5%float then
      let player := append_item "Oasis Water" (gain 8 player) in
      (player, say player "You reached an oasis. +8 pts" " . +8 " FG_GREEN)
    else
      let player := lose_hp player in
      (player, say player "Heatstroke costs you. -1 HP" "  .  ." FG_RED)
  else if choice =? 2 then
    if gt luck 0.6%float then
      let player := append_item "Spare Parts" (gain 10 player) in
      (player, say player "You found a broken convoy with supplies. +10 pts" "   . +10 " FG_GREEN)
    else
      let player := lose_hp player in
      (player, say player "You got lost. -1 HP" "  .  ." FG_RED)
  else
    let player := gain 2 player in
    (player, say player "You conserved resources. +2 pts" " . +2 " FG_YELLOW).

(** Lab, lines 308-310: the draw plus the Medkit bonus. *)
Definition lab_luck (player : Player) (r : float) : float :=
  if has_item "Medkit" player then (r + 0.08)%float else r.

(** Lab, lines 308-335. *)
Definition lab_outcome (player : Player) (choice : Z) (r : float) : Player * shown :=
  let luck := lab_luck player r in
  if choice =? 1 then
    if gt luck 0.55%float then
      let player := append_item "Energy Cell" (gain 12 player) in
      (player, say player "You repurposed machinery. +12 pts" "  . +12 " FG_GREEN)
    else
      let player := lose_hp player in
      (player, say player "Alarm! -1 HP" " .  ." FG_RED)
  else if choice =? 2 then
    if gt luck 0.5%float then
      let player := append_item "Vaccine Sample" (gain 15 player) in
      (player, say player "Valuable sample acquired. +15 pts" "   . +15 " FG_GREEN)
    else
      let player := lose_hp player in
      (player, say player "Sample spoiled. -1 HP" " .  ." FG_RED)
  else
    if gt luck 0.4%float then
      let player := append_item "Toolkit" (gain 6 player) in
      (player, say player "You stole useful gear. +6 pts" "  . +6 " FG_GREEN)
    else
      let player := lose_hp player in
      (player, say player "Caught by scavengers. -1 HP" "  .  ." FG_RED).

(** Forest, lines 358-360: the draw plus the Oasis Water bonus. *)
Definition forest_luck (player : Player) (r : float) : float :=
  if has_item "Oasis Water" player then (r + 0.07)%float else r.

(** Forest, lines 358-380. *)
Definition forest_outcome (player : Player) (choice : Z) (r : float) : Player * shown :=
  let luck := forest_luck player r in
  if choice =? 1 then
    if gt luck 0.5%float then
      let player := append_item "Fresh Water" (gain 9 player) in
      (player, say player "Found a stream. +9 pts" "  . +9 " FG_GREEN)
    else
      let player := lose_hp player in
      (player, say player "Ambushed by bandits. -1 HP" "!  ." FG_RED)
  else if choice =? 2 then
    let player := gain 3 player in
    (player, say player "You avoided conflict. +3 pts" " . +3 " FG_YELLOW)
  else
    if gt luck 0.55%float then
      let player := append_item "Game Meat" (gain 11 player) in
      (player, say player "Trap successful. +11 pts" " . +11 " FG_GREEN)
    else
      let player := lose_hp player in
      (player, say player "Trap failed. -1 HP" " .  ." FG_RED).

(** Boss, lines 404-410. *)
Definition char_mod (player : Player) (choice : Z) : float :=
  if char_in player ["Warrior"; ""] then
    (if choice =? 1 then 0.25%float else 0.05%float)
  else if char_in player ["Scholar"; ""] then
    (if choice =? 2 then 0.25%float else 0.05%float)
  else
    (if choice =? 2 then 0.25%float else 0.1%float).

(** Boss, lines 412-418. *)
Definition inventory_bonus (player : Player) : float :=
  let b := 0.0%float in
  let b := if has_item "Vaccine Sample" player then (b + 0.2)%float else b in
  let b := if has_item "Game Meat" player || has_item "Canned Food" player
           then (b + 0.05)%float else b in
  let b := if has_item "Energy Cell" player then (b + 0.08)%float else b in
  b.

(** Boss, line 420; [None] when [player.score] does not fit a float. *)
Definition final_score (player : Player) (choice : Z) (base_roll : float) : option float :=
  s ← Py.float_of_int (score player);
  Some (s + (base_roll + char_mod player choice + inventory_bonus player) * 35)%float.

(** Boss, lines 422-443: the ladder of the chosen action. *)
Definition boss_tag (player : Player) (choice : Z) (final_score : float) : string :=
  if choice =? 1 then
    let thresh := if char_in player ["Warrior"; ""] then 45%float else 60%float in
    if ge final_score thresh then "victory_force" else "defeat_force"
  else if choice =? 2 then
    let thresh :=
      if char_in player ["Trickster"; ""; "Scholar"; ""] then 48%float else 62%float in
    if ge final_score thresh then "victory_cunning" else "defeat_cunning"
  else
    if ge final_score 75%float then "victory_alliance"
    else if ge final_score 45%float then "compromise"
    else "betrayed".

(** Boss, lines 403-443: the returned pair [(tag, final_score)]. *)
Definition boss_outcome (player : Player) (choice : Z) (base_roll : float)
  : option (string * float) :=
  fs ← final_score player choice base_roll;
  Some (boss_tag player choice fs, fs).

(** ** Scenes and the sequencer *)

(** [ask_int]: read lines until one is an integer in [valid]; a line that
    is not a number ([ValueError]) or not a valid option asks again.  An
    exhausted input raises [EOFError], which [ask_int] does not catch. *)
Fixpoint ask_int_from (valid : gset Z) (lines : list string) : res Z * list string :=
  match lines with
  | [] => (Raise EOFError, [])
  | line :: rest =>
      match Py.int (Py.strip line) with
      | Some num =>
          if bool_decide (valid ≠ ∅) && bool_decide (num ∉ valid)
          then ask_int_from valid rest
          else (Ok num, rest)
      | None => ask_int_from valid rest
      end
  end.

Definition ask_int (valid : gset Z) : M Z :=
  fun w => let '(r, rest) := ask_int_from valid (stdin w) in (r, set_stdin rest w).

(** [summary]: prints the status, then waits for Enter. *)
Definition summary (player : Player) : M unit := input;; mret tt.

(** [intro] *)
Definition intro (player : Player) : M Player :=
  ch ← ask_int {[1; 2; 3]};
  let player :=
    if bool_decide (lang player = "ar")
    then set_char (Some "") player
    else set_char (Some (if ch =? 1 then "Trickster"
                         else if ch =? 2 then "Warrior" else "Scholar")) player in
  emit (EvIntro player);;
  input;;
  mret player.

(** The common shape of the four levels: record the stage, ask the choice,
    draw, apply the outcome, show the summary. *)
Definition level (s : Stage) (index : Z)
    (outcome : Player -> Z -> float -> Player * shown) (player : Player) : M Player :=
  let player := set_stage (Z.max (stage player) index) player in
  choice ← ask_int {[1; 2; 3]};
  r ← random;
  let '(player, line) := outcome player choice r in
  emit (EvLevel s choice r line player);;
  summary player;;
  mret player.

Definition level_town : Player -> M Player := level Town 1 town_outcome.
Definition level_desert : Player -> M Player := level Desert 2 desert_outcome.
Definition level_lab : Player -> M Player := level Lab 3 lab_outcome.
Definition level_forest : Player -> M Player := level Forest 4 forest_outcome.

(** [boss_final]: returns [(tag, final_score)]; the player it updated is
    returned with them. *)
Definition boss_final (player : Player) : M (Player * (string * float)) :=
  let player := set_stage (Z.max (stage player) 5) player in
  choice ← ask_int {[1; 2; 3]};
  base_roll ← random;
  match boss_outcome player choice base_roll with
  | Some (tag, fs) =>
      emit (EvBoss choice base_roll tag fs player);;
      mret (player, (tag, fs))
  | None => raise OverflowError
  end.

(** [endings]: shows the outcome and the final score as an integer
    (line 475), then offers to log the run. *)
Definition endings (tag : string) (final_score : float) (player : Player) : M unit :=
  int_of_score final_score;;
  ans ← input;
  if Py.says_yes ans then append_result player tag final_score;; mret tt
  else mret tt.

(** How a run of [main] that returns normally went (ghost). *)
Inductive ending :=
| Ended (tag : string) (final_score : float)
| Aborted.

(** [levels = [level_town, level_desert, level_lab, level_forest, boss_final]];
    inside the loop the value a level returns is dropped. *)
Definition levels : list (Player -> M Player) :=
  [level_town; level_desert; level_lab; level_forest;
   fun player => r ← boss_final player; mret r.1].

(** Lines 516-522: the quick-save offer before a level.  Whether the save
    worked only changes the message shown. *)
Definition offer_save (player : Player) : M unit :=
  ans ← input;
  if Py.says_yes ans then save_checkpoint player;; mret tt else mret tt.

(** Lines 526-538, taken when [player.hp <= 0]: offer to reload.  [resume]
    is the rest of the loop ([continue]); [None] is the [return] of line 538. *)
Definition recovery (resume : Player -> M (option Player)) : M (option Player) :=
  ans ← input;
  if Py.says_yes ans then
    loaded ← load_checkpoint;
    match loaded with
    | Some s =>
        match typed s with
        | Some player => emit (EvReload player);; resume player
        | None => untyped
        end
    | None => mret None
    end
  else mret None.

(** The [for] loop of [main], lines 515-538.  [Some player]: the loop ran
    out of levels; [None]: the [return] of line 538 was taken. *)
Fixpoint run_levels (todo : list (Player -> M Player)) (player : Player)
  : M (option Player) :=
  match todo with
  | [] => mret (Some player)
  | level_func :: rest =>
      offer_save player;;
      player ← level_func player;
      if hp player <=? 0 then recovery (run_levels rest)
      else run_levels rest player
  end.

(** Lines 544-548. *)
Definition remove_checkpoint : M unit :=
  present ← path_exists;
  if (present : bool) then try_except os_remove (fun _ => mret tt) else mret tt.

(** Lines 485-511 of [main]: language, the offer to load a checkpoint, the
    name of a new player, the character selection of a player at stage 0. *)
Definition setup : M Player :=
  lang_choice ← ask_int {[1; 2]};
  let lang := if lang_choice =? 1 then "en" else "ar" in
  present ← path_exists;
  loaded ← (if (present : bool) then
              ans ← input;
              if Py.says_yes ans then load_checkpoint else mret None
            else mret None);
  player ← match loaded with
            | Some s =>
                match typed s with
                | Some player => mret (set_lang lang player)
                | None => untyped
                end
            | None =>
                line ← input;
                let name := Py.strip line in
                let name := if bool_decide (name = "") then
                              (if bool_decide (lang = "en") then "Player" else "")
                            else name in
                mret (new_player name lang)
            end;
  emit (EvStart player);;
  if stage player =? 0 then intro player else mret player.

(** Lines 540-548 of [main]: the boss resolution after the loop, the
    ending, the removal of the checkpoint. *)
Definition finale (player : Player) : M ending :=
  '(player, (tag, fs)) ← boss_final player;
  endings tag fs player;;
  remove_checkpoint;;
  mret (Ended tag fs).

(** [main] *)
Definition main : M ending :=
  player ← setup;
  r ← run_levels levels player;
  match r with
  | None => mret Aborted
  | Some player => finale player
  end.

(** ** Vocabulary of the properties *)

(** A draw is a float in [0,1). *)
Definition is_draw (r : float) : bool := PrimFloat.leb 0 r && PrimFloat.ltb r 1.

(** A failure branch is the one whose outcome line is shown in red (the
    lines reading "-1 HP"). *)
Definition declared_failure (line : shown) : bool :=
  match line.2 with FG_RED => true | _ => false end.

(** What a resolver may do to hit points and score. *)
Definition hp_score_law (outcome : Player -> Z -> float -> Player * shown) : Prop :=
  ∀ (p : Player) (choice : Z) (r : float),
    let '(p', line) := outcome p choice r in
    (if declared_failure line then hp p' = hp p - 1 else hp p' = hp p)
    ∧ score p ≤ score p'.

(** The success threshold the code compares the luck value with, per stage
    and choice; [None] for the choices that have none (Town 3, Desert 3,
    Forest 2).  A choice other than 1 or 2 takes the last branch. *)
Definition threshold (s : Stage) (choice : Z) : option float :=
  match s with
  | Town => if choice =? 1 then Some 0.5%float
            else if choice =? 2 then Some 0.45%float else None
  | Desert => if choice =? 1 then Some 0.5%float
              else if choice =? 2 then Some 0.6%float else None
  | Lab => if choice =? 1 then Some 0.55%float
           else if choice =? 2 then Some 0.5%float else Some 0.4%float
  | Forest => if choice =? 1 then Some 0.5%float
              else if choice =? 2 then None else Some 0.55%float
  | Boss => None
  end.

(** The adjusted luck value of a level. *)
Definition luck (s : Stage) (p : Player) (r : float) : float :=
  match s with
  | Town => town_luck p r
  | Desert => desert_luck p r
  | Lab => lab_luck p r
  | Forest => forest_luck p r
  | Boss => r
  end.

(** The resolver of each of the four levels. *)
Definition outcome_of (s : Stage) : option (Player -> Z -> float -> Player * shown) :=
  match s with
  | Town => Some town_outcome
  | Desert => Some desert_outcome
  | Lab => Some lab_outcome
  | Forest => Some forest_outcome
  | Boss => None
  end.

(** The two deltas: a success adds a positive score, keeps the hit points
    and may append one item; a failure costs exactly one hit point and
    changes nothing else. *)
Definition success_delta (p p' : Player) : Prop :=
  score p < score p' ∧ hp p' = hp p
  ∧ (inventory p' = inventory p
     ∨ ∃ item : string, inventory p' = (inventory p ++ [item])%list).
Definition failure_delta (p p' : Player) : Prop := p' = lose_hp p.

(** The Scholar's way through the first choice in Town (line 223). *)
Definition scholar_pass (s : Stage) (choice : Z) (p : Player) : bool :=
  match s with
  | Town => (choice =? 1) && char_in p ["Scholar"; ""]
  | _ => false
  end.

(** The tags [boss_final] can return. *)
Definition boss_tags : list string :=
  ["victory_force"; "defeat_force"; "victory_cunning"; "defeat_cunning";
   "victory_alliance"; "compromise"; "betrayed"].

(** Sample players. *)
Definition scholar : Player := mkPlayer "Ann" 3 0 (Some "Scholar") [] "en" 0.
Definition warrior : Player := mkPlayer "Bob" 3 0 (Some "Warrior") [] "en" 0.
Definition with_score (n : Z) (c : string) : Player :=
  mkPlayer "Ann" 3 n (Some c) [] "en" 4.

(** A world with the given input lines, a generator that always returns
    [draw], the given checkpoint file, an empty log and no fault. *)
Definition world_of (lines : list string) (draw : float) (file : option content) : World :=
  {| stdin := lines; rng := fun _ => draw; drawn := 0; save_file := file;
     results_file := []; faults := fun _ => false;
     clock := "2024-01-01T00:00:00"; trace := [] |}.

(** The player an event of the trace carries. *)
Definition event_player (e : event) : Player :=
  match e with
  | EvStart p | EvIntro p | EvLevel _ _ _ _ p | EvBoss _ _ _ _ p | EvReload p => p
  end.

(** The stages resolved along a trace, in order. *)
Definition stages_resolved (tr : list event) : list Stage :=
  omap (fun e => match e with
                 | EvLevel s _ _ _ _ => Some s
                 | EvBoss _ _ _ _ _ => Some Boss
                 | _ => None
                 end) tr.


(** Hoare triples of the monad: from a world in [P], [m] returns a value
    and a world in [Q], or stops (exception, untyped record) in a world in
    [E]. *)
Definition hoare {A} (P : World -> Prop) (m : M A)
    (Q : A -> World -> Prop) (E : World -> Prop) : Prop :=
  ∀ w, P w ->
    match m w with
    | (Ok a, w') => Q a w'
    | (_, w') => E w'
    end.

(** [m] keeps the world invariant [I] however it ends, and a value it
    returns satisfies [φ]. *)
Definition keeps {A} (I : World -> Prop) (m : M A) (φ : A -> Prop) : Prop :=
  hoare I m (fun a w => I w ∧ φ a) I.


(** Input of a run that starts without checkpoint, saves one before Town,
    fails Town, Desert and Lab, reloads, and goes on to the end. *)
Definition reload_input : list string :=
  ["1"; "Ann"; "2"; "";
   "y"; "2"; "";  "n"; "1"; "";  "n"; "1"; "";  "y";
   "n"; "2"; "";  "n"; "1";  "1"; "n"].

(** Input of a run that declines the checkpoint found at start, fails
    Town, Desert and Lab, reloads that checkpoint, plays Forest and stops. *)
Definition foreign_input : list string :=
  ["1"; "n"; "Ann"; "2"; "";
   "n"; "2"; "";  "n"; "1"; "";  "n"; "1"; "";  "y";
   "n"; "2"; "";  "n"].

(** A checkpoint file that was not written by the run: hit points -1. *)
Definition foreign_file : option content :=
  Some (Doc (JObj (to_dict (mkPlayer "Old" (-1) 5 (Some "Warrior") [] "en" 2)))).

(** Input of a run without checkpoint in which every choice succeeds; the
    boss scene is answered twice, first with 3 and then with 1. *)
Definition clean_input : list string :=
  ["1"; "Ann"; "2"; "";
   "n"; "1"; "";  "n"; "1"; "";  "n"; "2"; "";  "n"; "3"; "";
   "n"; "3";  "1"; "y"].

(** A checkpoint saved before Forest (stage 3), and the input of a run
    that loads it at start and plays to the end. *)
Definition at_stage_3 : Player :=
  mkPlayer "Ann" 2 33 (Some "Warrior") ["Canned Food"; "Vaccine Sample"] "en" 3.
Definition stage_3_file : option content :=
  Some (Doc (JObj (to_dict at_stage_3))).
Definition resume_input : list string :=
  ["1"; "y";
   "n"; "3"; "";  "n"; "3"; "";  "n"; "3"; "";  "n"; "2"; "";
   "n"; "1";  "1"; "n"].

(** The choices and tags of the boss resolutions along a trace. *)
Definition boss_resolutions (tr : list event) : list (Z * string) :=
  omap (fun e => match e with
                 | EvBoss choice _ tag _ _ => Some (choice, tag)
                 | _ => None
                 end) tr.

(** [m], when it returns [a], has resolved the stages [ss] for which
    [Q a ss] holds, one after the other, and has consumed one draw for each
    of them. *)
Definition resolves {A} (m : M A) (Q : A -> list Stage -> Prop) : Prop :=
  ∀ w,
    match m w with
    | (Ok a, w') =>
        ∃ ss, Q a ss
              ∧ stages_resolved (trace w') = (stages_resolved (trace w) ++ ss)%list
              ∧ drawn w' = (drawn w + length ss)%nat
    | _ => True
    end.

(** [m] resolves no stage. *)
Definition quiet {A} (m : M A) : Prop := resolves m (fun _ ss => ss = []).

(** The record stored by the save made before Town in [reload_input]. *)
Definition saved_before_town : Player :=
  mkPlayer "Ann" 3 0 (Some "Warrior") [] "en" 0.

(** A level function that costs at most one hit point, under the world
    invariant [I] and for players satisfying [good]. *)
Definition lawful (I : World -> Prop) (good : Player -> Prop)
    (f : Player -> M Player) : Prop :=
  ∀ p, good p -> keeps I (f p) (fun p' => hp p - 1 ≤ hp p' ≤ hp p).

(** A level function that resolves exactly the stage [s]. *)
Definition plays (s : Stage) (f : Player -> M Player) : Prop :=
  ∀ p, resolves (f p) (fun _ ss => ss = [s]).

(** The files as an aborted run must leave them: the log equal to
    [results], and a checkpoint still there if [kept]. *)
Definition files_kept (results : list string) (kept : Prop) (w : World) : Prop :=
  results_file w = results ∧ (kept -> is_Some (save_file w)).


Ltac split_outcome :=
  repeat match goal with
    | |- context [if ?b then _ else _] => destruct b eqn:?
    end.

Ltac unfold_monad :=
  unfold mbind, M_bind, bind, mret, M_ret, ret, raise, try_except in *.


(** ** Vocabulary of further properties *)

(** What [ask_int] makes of one line: the number it returns for it, or
    [None] when it asks again (not a number, or not a valid option). *)
Definition accepted (valid : gset Z) (line : string) : option Z :=
  match Py.int (Py.strip line) with
  | Some num =>
      if bool_decide (valid ≠ ∅) && bool_decide (num ∉ valid) then None else Some num
  | None => None
  end.

(** The item names some later test looks for (lines 264, 309, 359, 413-417). *)
Definition effective_items : list string :=
  ["Canned Food"; "Medkit"; "Oasis Water"; "Vaccine Sample"; "Game Meat"; "Energy Cell"].

(** The line [append_result] writes (line 164), for the integer [n] shown
    as the score. *)
Definition log_line (now : string) (player : Player) (tag : string) (n : Z) : string :=
  now +:+ " | " +:+ name player +:+ " | " +:+ str_char player
  +:+ " | " +:+ tag +:+ " | Score:" +:+ Py.str n
  +:+ " | HP:" +:+ Py.str (hp player).

(** [endings], lines 462-473: the line shown for a tag. *)
Definition ending_line (tag : string) (player : Player) : shown :=
  if bool_decide (tag = "victory_force") then
    say player "You led a victorious assault and liberated the stronghold!"
      "    !" FG_GREEN
  else if bool_decide (tag = "victory_cunning") then
    say player "Through cunning you secured control and rebalanced resources."
      "       ." FG_GREEN
  else if bool_decide (tag = "victory_alliance") then
    say player "A risky alliance paid off — stable resources for many."
      "      ." FG_GREEN
  else if bool_decide (tag = "compromise") then
    say player "You compromised — survival with strings attached."
      "  —   ." FG_YELLOW
  else if bool_decide (tag = "betrayed") then
    say player "You were betrayed. Learn and adapt."
      " .  ." FG_RED
  else
    say player "Defeat — you survived barely or perished."
      " —     ." FG_RED.

(** The part of the world the scenes leave alone: the two files, the
    faults and the clock. *)
Definition same_env (w w' : World) : Prop :=
  save_file w' = save_file w ∧ results_file w' = results_file w
  ∧ faults w' = faults w ∧ clock w' = clock w.

(** [m] only talks to the console: it reads lines, draws random numbers
    and shows text. *)
Definition console {A} (m : M A) : Prop := ∀ w, same_env w (m w).2.

(** A property of the world that only looks at the trace and is kept when
    the trace grows. *)
Definition trace_monotone (I : World -> Prop) : Prop :=
  ∀ w w', (trace w' = trace w ∨ ∃ e, trace w' = (trace w ++ [e])%list) -> I w -> I w'.

(** The trace of [w] continues [t0]. *)
Definition continues (t0 : list event) (w : World) : Prop :=
  ∃ new, trace w = (t0 ++ new)%list.

(** Since the trace was [t0], some scene has left the player without hit
    points. *)
Definition exhausted_since (t0 : list event) (w : World) : Prop :=
  ∃ new e, trace w = (t0 ++ new)%list ∧ e ∈ new ∧ hp (event_player e) ≤ 0.

(** A level function that records the player it returns as one more event
    of the trace. *)
Definition records (f : Player -> M Player) : Prop :=
  ∀ p w,
    match f p w with
    | (Ok p', w') => ∃ e, trace w' = (trace w ++ [e])%list ∧ hp (event_player e) = hp p'
    | _ => True
    end.

(** * Verified properties *)

(** ** Boss resolution on the documented example *)

(** C5: with draw 0.5, character Warrior, choice 1 and an empty inventory the
    boss resolution has archetype modifier 0.25, item bonus 0 and final score
    score + 26.25; at score 0 this is 26.25, below the Warrior/assault
    threshold 45, and the tag is defeat_force; at score 30 it is 56.25, at
    least 45, and the tag is victory_force. *)
Theorem boss_warrior_assault_example (nm lg : string) (h st sc : Z) :
  let p := mkPlayer nm h sc (Some "Warrior") [] lg st in
  char_mod p 1 = 0.25%float
  ∧ inventory_bonus p = 0%float
  ∧ final_score p 1 0.5 = (λ s, (s + 26.25)%float) <$> Py.float_of_int sc
  ∧ boss_outcome (set_score 0 p) 1 0.5 = Some ("defeat_force", 26.25%float)
  ∧ ge 26.25 45 = false
  ∧ boss_outcome (set_score 30 p) 1 0.5 = Some ("victory_force", 56.25%float)
  ∧ ge 56.25 45 = true.
Proof. cbv zeta. repeat split; vm_compute; reflexivity. Qed.

(** ** Hit points and score under a stage resolution *)

(** C7: in every stage resolution hit points drop by exactly 1 on a failure
    branch and are unchanged on every other branch, and the score never
    decreases; the boss resolution changes neither. *)
Theorem hp_and_score_under_resolution :
  hp_score_law town_outcome
  ∧ hp_score_law desert_outcome
  ∧ hp_score_law lab_outcome
  ∧ hp_score_law forest_outcome
  ∧ ∀ (p : Player) (w : World),
      match boss_final p w with
      | (Ok (p', _), _) => hp p' = hp p ∧ score p' = score p
      | _ => True
      end.
Proof.
  repeat split.
  1-4: intros p choice r;
       unfold town_outcome, desert_outcome, lab_outcome, forest_outcome;
       split_outcome; cbn in *; first [discriminate | lia].
  intros p w. unfold boss_final, mbind, M_bind, bind.
  destruct (ask_int _ w) as [[choice| |] w1]; [|done..].
  cbn. destruct (boss_outcome _ choice _) as [[tag fs]|]; done.
Qed.

(** ** What decides the branch of a level *)

(** C4, as stated, fails in Town on the first choice: a Scholar drawing 0.05
    and a Warrior drawing 0.08 have the same luck value 0.13, which does not
    exceed the threshold 0.5, yet the Scholar gets the success delta while
    the Warrior loses a hit point. *)
Lemma luck_alone_does_not_decide :
  is_draw 0.05 = true ∧ is_draw 0.08 = true
  ∧ town_luck scholar 0.05 = town_luck warrior 0.08
  ∧ gt (town_luck scholar 0.05) 0.5 = false
  ∧ (town_outcome scholar 1 0.05).1 = append_item "Canned Food" (gain 10 scholar)
  ∧ hp (town_outcome scholar 1 0.05).1 = hp scholar
  ∧ (town_outcome warrior 1 0.08).1 = lose_hp warrior.
Proof. repeat split; vm_compute; reflexivity. Qed.

(** C4, amended: in each of the four levels a choice that has a threshold
    gets the success delta exactly when the luck value (the draw plus the
    archetype bonus in Town, plus the inventory bonus elsewhere) exceeds it,
    or when a Scholar takes the first choice in Town, and the failure delta
    of one hit point otherwise; a choice without threshold always gets the
    success delta. *)
Theorem branch_decided_by_luck (s : Stage) outcome (p : Player) (choice : Z) (r : float) :
  outcome_of s = Some outcome ->
  let p' := (outcome p choice r).1 in
  match threshold s choice with
  | Some thr =>
      if gt (luck s p r) thr || scholar_pass s choice p
      then success_delta p p' else failure_delta p p'
  | None => success_delta p p'
  end.
Proof.
  destruct s; intros [= <-]; cbn -[gt char_in];
    unfold town_outcome, desert_outcome, lab_outcome, forest_outcome,
      success_delta, failure_delta;
    repeat match goal with
      | |- context [choice =? ?n] => destruct (choice =? n) eqn:?
      | |- context [gt ?a ?b] => destruct (gt a b) eqn:?
      | |- context [char_in ?a ?b] => destruct (char_in a b) eqn:?
      end; cbn; try done; try (split; [lia|]; split; [done|]; eauto).
Qed.

Lemma branch_decided_by_luck_witness :
  outcome_of Town = Some town_outcome
  ∧ success_delta scholar (town_outcome scholar 1 0.05).1.
Proof.
  split; [reflexivity|].
  exact (branch_decided_by_luck Town town_outcome scholar 1 0.05 eq_refl).
Defined.

(** ** The boss resolution *)

(** C2, as stated, fails: no list of six tags holds every tag the boss
    resolution returns, since seven different ones are returned; and a
    score too large for a float makes the resolution raise. *)
Lemma boss_tags_are_seven :
  (¬ ∃ tags : list string, length tags = 6%nat ∧
       ∀ p choice r tag fs, choice ∈ [1; 2; 3] -> is_draw r = true ->
         boss_outcome p choice r = Some (tag, fs) -> tag ∈ tags)
  ∧ boss_outcome (with_score (2 ^ 1024) "Warrior") 1 0.5 = None.
Proof.
  split; [|vm_compute; reflexivity].
  intros (tags & Hlen & Hin).
  assert (Hsub : ∀ t, t ∈ boss_tags -> t ∈ tags).
  { intros t Ht. unfold boss_tags in Ht.
    repeat (apply elem_of_cons in Ht as [-> | Ht]); [..|by apply elem_of_nil in Ht].
    - apply (Hin (with_score 30 "Warrior") 1 0.5%float _ 56.25%float);
        [set_solver | done | vm_compute; reflexivity].
    - apply (Hin (with_score 0 "Warrior") 1 0.5%float _ 26.25%float);
        [set_solver | done | vm_compute; reflexivity].
    - apply (Hin (with_score 40 "Scholar") 2 0.5%float _ 66.25%float);
        [set_solver | done | vm_compute; reflexivity].
    - apply (Hin (with_score 0 "Scholar") 2 0.5%float _ 26.25%float);
        [set_solver | done | vm_compute; reflexivity].
    - apply (Hin (with_score 80 "Warrior") 3 0.5%float _ 99.25%float);
        [set_solver | done | vm_compute; reflexivity].
    - apply (Hin (with_score 30 "Warrior") 3 0.5%float _ 49.25%float);
        [set_solver | done | vm_compute; reflexivity].
    - apply (Hin (with_score 0 "Warrior") 3 0.5%float _ 19.25%float);
        [set_solver | done | vm_compute; reflexivity]. }
  assert (Hnd : NoDup boss_tags) by compute_done.
  pose proof (submseteq_length _ _ (NoDup_submseteq _ _ Hnd Hsub)) as Hle.
  rewrite Hlen in Hle. cbn in Hle. lia.
Qed.

(** C2, amended: for every player state whose score fits a float, every
    choice and every draw, the boss resolution returns the final score
    score + (draw + archetype modifier + item bonus) * 35 and exactly one of
    seven tags, read off the ladder of the chosen action: assault is a
    victory from 45 for a Warrior and from 60 otherwise, negotiation from 48
    for a Trickster or Scholar and from 62 otherwise, alliance is a victory
    from 75, a compromise from 45 and a betrayal below. *)
Theorem boss_returns_one_of_seven (p : Player) (choice : Z) (r s : float) :
  Py.float_of_int (score p) = Some s ->
  ∃ tag fs,
    boss_outcome p choice r = Some (tag, fs)
    ∧ fs = (s + (r + char_mod p choice + inventory_bonus p) * 35)%float
    ∧ tag ∈ boss_tags
    ∧ (choice = 1 ->
       tag = if ge fs (if char_in p ["Warrior"; ""] then 45 else 60)
             then "victory_force" else "defeat_force")
    ∧ (choice = 2 ->
       tag = if ge fs (if char_in p ["Trickster"; ""; "Scholar"; ""] then 48 else 62)
             then "victory_cunning" else "defeat_cunning")
    ∧ (choice = 3 ->
       tag = if ge fs 75 then "victory_alliance"
             else if ge fs 45 then "compromise" else "betrayed").
Proof.
  intros Hs. unfold boss_outcome, final_score. rewrite Hs. cbn [mbind option_bind].
  eexists _, _. split; [reflexivity|]. split; [reflexivity|].
  unfold boss_tag, boss_tags.
  repeat split.
  - repeat match goal with
      | |- context [if ?b then _ else _] => destruct b
      end; set_solver.
  - intros ->. reflexivity.
  - intros ->. reflexivity.
  - intros ->. reflexivity.
Qed.

Lemma boss_returns_one_of_seven_witness :
  Py.float_of_int (score (with_score 30 "Warrior")) = Some 30%float
  ∧ ∃ tag fs, boss_outcome (with_score 30 "Warrior") 1 0.5 = Some (tag, fs)
              ∧ tag ∈ boss_tags.
Proof.
  split; [vm_compute; reflexivity|].
  destruct (boss_returns_one_of_seven (with_score 30 "Warrior") 1 0.5 30
              ltac:(vm_compute; reflexivity)) as (tag & fs & H1 & _ & H3 & _).
  exists tag, fs. split; assumption.
Defined.

(** ** The checkpoint store and the result log *)

Lemma from_dict_to_dict (p : Player) : from_dict (to_dict p) = stored_of p.
Proof. destruct p. reflexivity. Qed.

Lemma mapM_as_str (l : list string) : mapM as_str (JStr <$> l) = Some l.
Proof.
  induction l as [|x l IH]; [reflexivity|].
  cbn. rewrite IH. reflexivity.
Qed.

Lemma typed_stored_of (p : Player) : typed (stored_of p) = Some p.
Proof.
  destruct p as [n h sc c inv lg st]. unfold typed, stored_of. cbn.
  destruct c; cbn; rewrite mapM_as_str; reflexivity.
Qed.

Lemma bind_run {A B} (m : M A) (k : A -> M B) (w : World) :
  (m ≫= k) w = match m w with
               | (Ok a, w') => k a w'
               | (Raise e, w') => (Raise e, w')
               | (Untyped, w') => (Untyped, w')
               end.
Proof. reflexivity. Qed.

Lemma input_run (w : World) (line : string) (rest : list string) :
  stdin w = line :: rest -> input w = (Ok line, set_stdin rest w).
Proof. intros H. unfold input. by rewrite H. Qed.

(** C6: when [save_checkpoint] reports success and the file can be opened
    for reading, [load_checkpoint] returns the record that was saved, field
    by field: name, hp, score, char, inventory in the same order, lang and
    stage. *)
Theorem checkpoint_round_trip (p : Player) (w : World) :
  (save_checkpoint p w).1 = Ok true ->
  faults w OpenRead = false ->
  let w' := (save_checkpoint p w).2 in
  load_checkpoint w' = (Ok (Some (stored_of p)), w')
  ∧ typed (stored_of p) = Some p.
Proof.
  intros Hsave Hread. split; [|apply typed_stored_of].
  revert Hsave. unfold save_checkpoint, open_write, json_dump. unfold_monad.
  destruct (faults w OpenWrite) eqn:Hw; [discriminate|]. cbn.
  destruct (faults w WriteData) eqn:Hd; [discriminate|]. cbn. intros _.
  unfold load_checkpoint, path_exists, open_read. unfold_monad. cbn.
  rewrite Hread. cbn. rewrite from_dict_to_dict. reflexivity.
Qed.

Lemma checkpoint_round_trip_witness :
  (save_checkpoint warrior (world_of [] 0.5 None)).1 = Ok true
  ∧ faults (world_of [] 0.5 None) OpenRead = false
  ∧ load_checkpoint (save_checkpoint warrior (world_of [] 0.5 None)).2
    = (Ok (Some (stored_of warrior)), (save_checkpoint warrior (world_of [] 0.5 None)).2).
Proof.
  split; [reflexivity|]. split; [reflexivity|].
  exact (proj1 (checkpoint_round_trip warrior (world_of [] 0.5 None) eq_refl eq_refl)).
Defined.

Lemma save_checkpoint_total (p : Player) (w : World) :
  ∃ b w', save_checkpoint p w = (Ok b, w')
          ∧ results_file w' = results_file w
          ∧ (is_Some (save_file w) -> is_Some (save_file w'))
          ∧ trace w' = trace w
          ∧ drawn w' = drawn w
          ∧ (save_file w' = save_file w ∨ save_file w' = Some Garbage
             ∨ save_file w' = Some (Doc (JObj (to_dict p)))).
Proof.
  unfold save_checkpoint, open_write, json_dump. unfold_monad.
  destruct (faults w OpenWrite) eqn:Hw; cbn; [by eauto 10|].
  destruct (faults w WriteData) eqn:Hd; cbn; eexists _, _; (split; [done|]);
    cbn; eauto 10.
Qed.


Lemma load_checkpoint_total (w : World) :
  ∃ r, load_checkpoint w = (Ok r, w)
       ∧ (save_file w = None ∨ save_file w = Some Garbage
          ∨ faults w OpenRead = true -> r = None).
Proof.
  unfold load_checkpoint, path_exists, open_read, json_load, Player_from_dict.
  unfold_monad. destruct w as [ins g n file res flt clk tr]. cbn.
  destruct file as [[|j]|]; cbn; [| |by eexists].
  - destruct (flt OpenRead); cbn; by eexists.
  - destruct (flt OpenRead); cbn.
    + eexists; split; [done|]. by intros [|[|]].
    + destruct j; cbn; eexists; (split; [done|]); by intros [|[|]].
Qed.


Lemma append_result_total (p : Player) (tag : string) (fs : float) (w : World) :
  ∃ b w', append_result p tag fs w = (Ok b, w')
          ∧ save_file w' = save_file w
          ∧ trace w' = trace w
          ∧ drawn w' = drawn w
          ∧ (b = false -> w' = w).
Proof.
  unfold append_result, open_append, utcnow_isoformat, int_of_score, write_line.
  unfold_monad.
  destruct (faults w OpenAppend); cbn; [by eexists _, _|].
  destruct (Py.int_of_float fs); cbn; [|by eexists _, _].
  destruct (faults w AppendData); cbn; by eexists _, _.
Qed.


(** ** Reasoning about runs *)

Lemma bind_ok_inv {A B} (m : M A) (k : A -> M B) (w w' : World) (b : B) :
  (m ≫= k) w = (Ok b, w') -> ∃ a w1, m w = (Ok a, w1) ∧ k a w1 = (Ok b, w').
Proof.
  rewrite bind_run. destruct (m w) as [[a|e|] w1]; [eauto|discriminate..].
Qed.

Lemma hoare_ret {A} (P : World -> Prop) (a : A) Q E :
  (∀ w, P w -> Q a w) -> hoare P (mret a) Q E.
Proof. intros H w Hw. by apply H. Qed.

Lemma hoare_bind {A B} P (m : M A) (k : A -> M B) Q R E :
  hoare P m Q E -> (∀ a, hoare (Q a) (k a) R E) -> hoare P (m ≫= k) R E.
Proof.
  intros Hm Hk w Hw. rewrite bind_run. specialize (Hm w Hw).
  destruct (m w) as [[a|e|] w1]; [by apply Hk|done..].
Qed.

Lemma hoare_conseq {A} (P P' : World -> Prop) (m : M A) (Q Q' : A -> World -> Prop) E :
  hoare P' m Q' E -> (∀ w, P w -> P' w) -> (∀ a w, Q' a w -> Q a w) ->
  hoare P m Q E.
Proof.
  intros Hm HP HQ w Hw. specialize (Hm w (HP w Hw)).
  destruct (m w) as [[a|e|] w1]; [by apply HQ|done..].
Qed.

Lemma hoare_pure {A} (P : World -> Prop) (φ : Prop) (m : M A) Q E :
  (φ -> hoare P m Q E) -> hoare (fun w => P w ∧ φ) m Q E.
Proof. intros H w [Hw Hφ]. by apply H. Qed.

Lemma ask_int_run (valid : gset Z) (w : World) :
  ∃ r rest, ask_int valid w = (r, set_stdin rest w).
Proof. unfold ask_int. destruct (ask_int_from valid (stdin w)); eauto. Qed.

Lemma outcome_hp_step (s : Stage) outcome (p : Player) (choice : Z) (r : float) :
  outcome_of s = Some outcome ->
  hp p - 1 ≤ hp (outcome p choice r).1 ≤ hp p.
Proof.
  destruct s; intros [= <-];
    unfold town_outcome, desert_outcome, lab_outcome, forest_outcome;
    split_outcome; cbn; lia.
Qed.

Section Invariant.

Variable I : World -> Prop.
Variables good okay : Player -> Prop.

Hypothesis I_stdin : ∀ v w, I w -> I (set_stdin v w).
Hypothesis I_drawn : ∀ v w, I w -> I (set_drawn v w).
Hypothesis I_emit :
  ∀ e w, okay (event_player e) -> I w -> I (set_trace (trace w ++ [e]) w).
Hypothesis I_save : ∀ p w, good p -> I w -> I (save_checkpoint p w).2.
Hypothesis I_load :
  ∀ w s p, I w -> (load_checkpoint w).1 = Ok (Some s) -> typed s = Some p -> good p.
Hypothesis good_okay : ∀ p, good p -> okay p.
Hypothesis good_new : ∀ p, hp p = 3 -> good p.
Hypothesis good_same : ∀ p p', hp p' = hp p -> good p -> good p'.
Hypothesis good_step :
  ∀ p p', good p -> hp p - 1 ≤ hp p' ≤ hp p -> 0 < hp p' -> good p'.
Hypothesis okay_step :
  ∀ p p', good p -> hp p - 1 ≤ hp p' ≤ hp p -> okay p'.

Lemma keeps_ret {A} (a : A) (φ : A -> Prop) : φ a -> keeps I (mret a) φ.
Proof. intros H. apply hoare_ret. by split. Qed.

Lemma keeps_bind {A B} (m : M A) (k : A -> M B) (φ : A -> Prop) (ψ : B -> Prop) :
  keeps I m φ -> (∀ a, φ a -> keeps I (k a) ψ) -> keeps I (m ≫= k) ψ.
Proof.
  intros Hm Hk. eapply hoare_bind; [exact Hm|].
  intros a. apply hoare_pure. apply Hk.
Qed.

Lemma keeps_weaken {A} (m : M A) (φ ψ : A -> Prop) :
  keeps I m φ -> (∀ a, φ a -> ψ a) -> keeps I m ψ.
Proof.
  intros Hm H. eapply hoare_conseq; [exact Hm|done|].
  intros a w [? ?]. split; [done|by apply H].
Qed.

Lemma keeps_untyped {A} (φ : A -> Prop) : keeps I untyped φ.
Proof. by intros w Hw. Qed.

Lemma keeps_input : keeps I input (fun _ => True).
Proof.
  intros w Hw. unfold input. destruct (stdin w); [done|].
  split; [by apply I_stdin|done].
Qed.

Lemma keeps_ask_int (valid : gset Z) : keeps I (ask_int valid) (fun _ => True).
Proof.
  intros w Hw. destruct (ask_int_run valid w) as (r & rest & ->).
  destruct r; try split; try done; by apply I_stdin.
Qed.

Lemma keeps_random : keeps I random (fun _ => True).
Proof. intros w Hw. split; [by apply I_drawn|done]. Qed.

Lemma keeps_emit (e : event) : okay (event_player e) -> keeps I (emit e) (fun _ => True).
Proof. intros He w Hw. split; [by apply I_emit|done]. Qed.

Lemma keeps_path_exists : keeps I path_exists (fun _ => True).
Proof. by intros w Hw. Qed.

Lemma keeps_save (p : Player) : good p -> keeps I (save_checkpoint p) (fun _ => True).
Proof.
  intros Hp w Hw. pose proof (I_save p w Hp Hw) as HI.
  destruct (save_checkpoint_total p w) as (b & w' & Heq & _).
  rewrite Heq in HI |- *. done.
Qed.

Lemma keeps_load :
  keeps I load_checkpoint
    (fun r => ∀ s p, r = Some s -> typed s = Some p -> good p).
Proof.
  intros w Hw. destruct (load_checkpoint_total w) as (r & Heq & _).
  pose proof (I_load w) as Hl. rewrite Heq in Hl |- *. cbn in Hl.
  split; [done|]. intros s p -> Ht. by eapply Hl.
Qed.

Lemma keeps_offer_save (p : Player) : good p -> keeps I (offer_save p) (fun _ => True).
Proof.
  intros Hp. unfold offer_save. eapply keeps_bind; [apply keeps_input|].
  intros ans _. destruct (Py.says_yes ans); [|by apply keeps_ret].
  eapply keeps_bind; [by apply keeps_save|]. intros. by apply keeps_ret.
Qed.

Lemma keeps_summary (p : Player) : keeps I (summary p) (fun _ => True).
Proof.
  unfold summary. eapply keeps_bind; [apply keeps_input|].
  intros. by apply keeps_ret.
Qed.

Lemma level_lawful (s : Stage) (index : Z) outcome :
  outcome_of s = Some outcome -> lawful I good (level s index outcome).
Proof.
  intros Hs p Hp. unfold level.
  eapply keeps_bind; [apply keeps_ask_int|]. intros choice _.
  eapply keeps_bind; [apply keeps_random|]. intros r _.
  pose proof (outcome_hp_step s outcome (set_stage (stage p `max` index) p)
                choice r Hs) as Hstep.
  destruct (outcome _ choice r) as [p' line]. cbn in Hstep.
  eapply keeps_bind.
  { apply keeps_emit. cbn. by apply (okay_step p). }
  intros _ _. eapply keeps_bind; [apply keeps_summary|].
  intros _ _. by apply keeps_ret.
Qed.

Lemma keeps_boss_final (p : Player) :
  good p -> keeps I (boss_final p) (fun r => hp r.1 = hp p).
Proof.
  intros Hp. unfold boss_final.
  eapply keeps_bind; [apply keeps_ask_int|]. intros choice _.
  eapply keeps_bind; [apply keeps_random|]. intros r _.
  destruct (boss_outcome _ choice r) as [[tag fs]|]; [|by intros w Hw].
  eapply keeps_bind.
  { apply keeps_emit. cbn. apply (okay_step p); [done|cbn; lia]. }
  intros _ _. by apply keeps_ret.
Qed.

Lemma levels_lawful : Forall (lawful I good) levels.
Proof.
  unfold levels. repeat apply Forall_cons_2; try by apply level_lawful.
  - intros p Hp. eapply keeps_bind; [by apply keeps_boss_final|].
    intros r Hr. apply keeps_ret. cbn beta in Hr. rewrite Hr. lia.
  - apply Forall_nil_2.
Qed.

Lemma keeps_recovery (resume : Player -> M (option Player)) (ψ : option Player -> Prop) :
  (∀ p, good p -> keeps I (resume p) ψ) -> ψ None ->
  keeps I (recovery resume) ψ.
Proof.
  intros Hres Hnone. unfold recovery.
  eapply keeps_bind; [apply keeps_input|]. intros ans _.
  destruct (Py.says_yes ans); [|by apply keeps_ret].
  eapply keeps_bind; [apply keeps_load|]. intros [s|] Hs; [|by apply keeps_ret].
  destruct (typed s) as [p|] eqn:Ht; [|apply keeps_untyped].
  assert (good p) by by eapply Hs.
  eapply keeps_bind; [apply keeps_emit; cbn; by apply good_okay|].
  intros _ _. by apply Hres.
Qed.

Lemma keeps_run_levels (todo : list (Player -> M Player)) :
  Forall (lawful I good) todo ->
  ∀ p, good p ->
    keeps I (run_levels todo p)
      (fun r => match r with Some p' => good p' | None => True end).
Proof.
  induction 1 as [|f todo Hf _ IH]; intros p Hp; cbn [run_levels].
  - by apply keeps_ret.
  - eapply keeps_bind; [by apply keeps_offer_save|]. intros _ _.
    eapply keeps_bind; [by apply Hf|]. intros p' Hp'.
    destruct (hp p' <=? 0) eqn:Hhp.
    + by apply keeps_recovery.
    + apply IH. apply (good_step p); [done..|lia].
Qed.

Lemma keeps_intro (p : Player) : good p -> keeps I (intro p) good.
Proof.
  intros Hp. unfold intro.
  eapply keeps_bind; [apply keeps_ask_int|]. intros ch _.
  set (p' := if bool_decide (lang p = "ar") then _ else _).
  assert (Hhp : hp p' = hp p) by (unfold p'; by case_bool_decide).
  eapply keeps_bind; [apply keeps_emit; cbn; apply good_okay; by eapply good_same|].
  intros _ _. eapply keeps_bind; [apply keeps_input|].
  intros _ _. apply keeps_ret. by eapply good_same.
Qed.

Lemma keeps_setup : keeps I setup good.
Proof.
  unfold setup.
  eapply keeps_bind; [apply keeps_ask_int|]. intros lang_choice _.
  eapply keeps_bind; [apply keeps_path_exists|]. intros present _.
  eapply keeps_bind with (φ := fun r => ∀ s p, r = Some s -> typed s = Some p -> good p).
  { destruct present; [|by apply keeps_ret].
    eapply keeps_bind; [apply keeps_input|]. intros ans _.
    destruct (Py.says_yes ans); [apply keeps_load|by apply keeps_ret]. }
  intros loaded Hl.
  eapply keeps_bind with (φ := good).
  { destruct loaded as [s|].
    - destruct (typed s) as [p|] eqn:Ht; [|apply keeps_untyped].
      apply keeps_ret. eapply good_same; [|by eapply Hl]. done.
    - eapply keeps_bind; [apply keeps_input|]. intros line _.
      apply keeps_ret. by apply good_new. }
  intros p Hp.
  eapply keeps_bind; [apply keeps_emit; cbn; by apply good_okay|]. intros _ _.
  destruct (stage p =? 0); [by apply keeps_intro|by apply keeps_ret].
Qed.

(** The run up to the end of the loop. *)
Lemma keeps_before_finale :
  keeps I (setup ≫= run_levels levels)
    (fun r => match r with Some p' => good p' | None => True end).
Proof.
  eapply keeps_bind; [apply keeps_setup|].
  intros p Hp. by apply keeps_run_levels; [apply levels_lawful|].
Qed.

Hypothesis I_append : ∀ p tag fs w, I w -> I (append_result p tag fs w).2.
Hypothesis I_remove : ∀ w, I w -> I (set_save_file None w).



End Invariant.

(** ** A run that ends at the recovery point *)

Lemma finale_never_aborts (p : Player) (w w' : World) :
  finale p w ≠ (Ok Aborted, w').
Proof.
  unfold finale. intros H.
  apply bind_ok_inv in H as ([p1 [tag fs]] & w1 & _ & H).
  apply bind_ok_inv in H as (_ & w2 & _ & H).
  apply bind_ok_inv in H as (_ & w3 & _ & H).
  discriminate H.
Qed.

Lemma files_kept_until_finale (results : list string) (kept : Prop) :
  keeps (files_kept results kept) (setup ≫= run_levels levels) (fun _ => True).
Proof.
  eapply keeps_weaken.
  - apply keeps_before_finale with (good := fun _ => True) (okay := fun _ => True);
      try done.
    intros p w _ [Hres Hkept].
    destruct (save_checkpoint_total p w) as (b & w' & Heq & Hr & Hk & _).
    rewrite Heq. cbn. split; [congruence|]. intros ?. by apply Hk, Hkept.
  - done.
Qed.

(** C8: when a level of the loop leaves the player without hit points and
    the reload is declined, the loop returns at once and nothing but the
    answer read from standard input changes: log and checkpoint are as the
    level left them; and every run that ends this way has written nothing
    to the result log and has not deleted a checkpoint file that existed. *)
Theorem declined_reload_leaves_files :
  (∀ level_func rest p w w0 p' w1 line ins,
     offer_save p w = (Ok tt, w0) ->
     level_func p w0 = (Ok p', w1) ->
     hp p' ≤ 0 ->
     stdin w1 = line :: ins -> Py.says_yes line = false ->
     run_levels (level_func :: rest) p w = (Ok None, set_stdin ins w1))
  ∧ (∀ w w',
       main w = (Ok Aborted, w') ->
       results_file w' = results_file w
       ∧ (is_Some (save_file w) -> is_Some (save_file w'))).
Proof.
  split.
  - intros f rest p w w0 p' w1 line ins Hsave Hrun Hhp Hin Hno. cbn [run_levels].
    rewrite bind_run, Hsave, bind_run, Hrun.
    replace (hp p' <=? 0) with true by (symmetry; by apply Z.leb_le).
    unfold recovery.
    rewrite bind_run, (input_run w1 line ins Hin), Hno. reflexivity.
  - intros w w' Hmain.
    pose proof (files_kept_until_finale (results_file w) (is_Some (save_file w)) w) as H.
    unfold main in Hmain. rewrite bind_run in Hmain. rewrite bind_run in H.
    destruct (setup w) as [[p| |] w1]; [|discriminate..].
    rewrite bind_run in Hmain.
    destruct (run_levels levels p w1) as [[[p'|]| |] w2]; [| |discriminate..].
    + by apply finale_never_aborts in Hmain.
    + injection Hmain as <-. destruct H as [[? ?] _]; [by split|]. by split.
Qed.

(** ** Hit points along a run *)





(** ** The order of the stages *)

Lemma resolves_ret {A} (a : A) (Q : A -> list Stage -> Prop) :
  Q a [] -> resolves (mret a) Q.
Proof.
  intros H w. exists []. rewrite app_nil_r. cbn. split; [done|]. split; [done|lia].
Qed.

Lemma resolves_bind {A B} (m : M A) (k : A -> M B) Q R :
  resolves m Q ->
  (∀ a s1, Q a s1 -> resolves (k a) (fun b s2 => R b (s1 ++ s2)%list)) ->
  resolves (m ≫= k) R.
Proof.
  intros Hm Hk w. rewrite bind_run. specialize (Hm w).
  destruct (m w) as [[a| |] w1]; [|done..].
  destruct Hm as (s1 & HQ & Ht & Hd). specialize (Hk a s1 HQ w1).
  destruct (k a w1) as [[b| |] w2]; [|done..].
  destruct Hk as (s2 & HR & Ht2 & Hd2). exists (s1 ++ s2)%list.
  split; [done|]. rewrite Ht2, Ht, Hd2, Hd, length_app, <- app_assoc.
  split; [done|lia].
Qed.

Lemma quiet_bind {A B} (m : M A) (k : A -> M B) R :
  quiet m -> (∀ a, resolves (k a) R) -> resolves (m ≫= k) R.
Proof.
  intros Hm Hk. eapply resolves_bind; [exact Hm|].
  intros a s1 ->. apply Hk.
Qed.

Lemma quiet_same {A} (m : M A) :
  (∀ w, trace (m w).2 = trace w ∧ drawn (m w).2 = drawn w) -> quiet m.
Proof.
  intros H w. specialize (H w). destruct (m w) as [[a| |] w']; [|done..].
  cbn in H. destruct H as [-> ->]. exists []. rewrite app_nil_r.
  split; [done|]. split; [done|cbn; lia].
Qed.

Lemma quiet_input : quiet input.
Proof. apply quiet_same. intros w. unfold input. by destruct (stdin w). Qed.

Lemma quiet_ask_int (valid : gset Z) : quiet (ask_int valid).
Proof.
  apply quiet_same. intros w. by destruct (ask_int_run valid w) as (r & rest & ->).
Qed.

Lemma quiet_path_exists : quiet path_exists.
Proof. by apply quiet_same. Qed.

Lemma quiet_load : quiet load_checkpoint.
Proof.
  apply quiet_same. intros w. by destruct (load_checkpoint_total w) as (r & -> & _).
Qed.

Lemma quiet_save (p : Player) : quiet (save_checkpoint p).
Proof.
  apply quiet_same. intros w.
  destruct (save_checkpoint_total p w) as (b & w' & -> & _ & _ & Ht & Hd & _).
  done.
Qed.

Lemma quiet_emit (e : event) :
  stages_resolved [e] = [] -> quiet (emit e).
Proof.
  intros He w. exists []. cbn. unfold stages_resolved in *.
  rewrite omap_app, He, !app_nil_r. split; [done|]. split; [done|lia].
Qed.

Lemma quiet_offer_save (p : Player) : quiet (offer_save p).
Proof.
  unfold offer_save. apply quiet_bind; [apply quiet_input|]. intros ans.
  destruct (Py.says_yes ans); [|by apply resolves_ret].
  apply quiet_bind; [apply quiet_save|]. intros. by apply resolves_ret.
Qed.

Lemma quiet_intro (p : Player) : quiet (intro p).
Proof.
  unfold intro. apply quiet_bind; [apply quiet_ask_int|]. intros ch.
  apply quiet_bind; [by apply quiet_emit|]. intros _.
  apply quiet_bind; [apply quiet_input|]. intros _. by apply resolves_ret.
Qed.

Lemma quiet_setup : quiet setup.
Proof.
  unfold setup. apply quiet_bind; [apply quiet_ask_int|]. intros lang_choice.
  apply quiet_bind; [apply quiet_path_exists|]. intros present.
  apply quiet_bind.
  { destruct present; [|by apply resolves_ret].
    apply quiet_bind; [apply quiet_input|]. intros ans.
    destruct (Py.says_yes ans); [apply quiet_load|by apply resolves_ret]. }
  intros loaded. apply quiet_bind.
  { destruct loaded as [s|].
    - destruct (typed s); [by apply resolves_ret|done].
    - apply quiet_bind; [apply quiet_input|]. intros. by apply resolves_ret. }
  intros p. apply quiet_bind; [by apply quiet_emit|]. intros _.
  destruct (stage p =? 0); [apply quiet_intro|by apply resolves_ret].
Qed.

Lemma resolves_one {A} (m : M A) (s : Stage) :
  (∀ w, match m w with
        | (Ok _, w') =>
            stages_resolved (trace w') = (stages_resolved (trace w) ++ [s])%list
            ∧ drawn w' = S (drawn w)
        | _ => True
        end) ->
  resolves m (fun _ ss => ss = [s]).
Proof.
  intros H w. specialize (H w). destruct (m w) as [[a| |] w']; [|done..].
  destruct H as [Ht Hd]. exists [s]. split; [done|]. split; [done|]. cbn. lia.
Qed.

Lemma level_plays (s : Stage) (index : Z) outcome : plays s (level s index outcome).
Proof.
  intros p. unfold level.
  eapply resolves_bind; [apply quiet_ask_int|]. intros choice ? ->.
  apply resolves_one. intros w. rewrite bind_run. cbn.
  destruct (outcome _ choice _) as [p' line].
  rewrite bind_run. cbn. unfold summary. rewrite !bind_run. unfold input. cbn.
  destruct (stdin w); [done|]. cbn. unfold stages_resolved.
  by rewrite omap_app.
Qed.

Lemma boss_final_plays (p : Player) : resolves (boss_final p) (fun _ ss => ss = [Boss]).
Proof.
  unfold boss_final.
  eapply resolves_bind; [apply quiet_ask_int|]. intros choice ? ->.
  apply resolves_one. intros w. rewrite bind_run. cbn.
  destruct (boss_outcome _ choice _) as [[tag fs]|]; [|done].
  rewrite bind_run. cbn. unfold stages_resolved. by rewrite omap_app.
Qed.

Lemma levels_play : Forall2 plays [Town; Desert; Lab; Forest; Boss] levels.
Proof.
  unfold levels. repeat apply Forall2_cons_2; try apply level_plays; [|done].
  intros p. eapply resolves_bind; [apply boss_final_plays|].
  intros r ? ->. by apply resolves_ret.
Qed.

Lemma recovery_resolves (resume : Player -> M (option Player)) (ss : list Stage) :
  (∀ p, resolves (resume p)
          (fun r s => match r with Some _ => s = ss | None => True end)) ->
  resolves (recovery resume)
    (fun r s => match r with Some _ => s = ss | None => True end).
Proof.
  intros Hres. unfold recovery.
  apply quiet_bind; [apply quiet_input|]. intros ans.
  destruct (Py.says_yes ans); [|by apply resolves_ret].
  apply quiet_bind; [apply quiet_load|]. intros [s|]; [|by apply resolves_ret].
  destruct (typed s) as [p|]; [|done].
  apply quiet_bind; [by apply quiet_emit|]. intros _. apply Hres.
Qed.

(** A loop that is left through its end has resolved every stage of the
    list once, in order, whatever reloads happened on the way. *)
Lemma run_levels_resolves (ss : list Stage) (todo : list (Player -> M Player)) :
  Forall2 plays ss todo ->
  ∀ p, resolves (run_levels todo p)
         (fun r s => match r with Some _ => s = ss | None => True end).
Proof.
  induction 1 as [|s f ss todo Hf _ IH]; intros p; cbn [run_levels].
  - by apply resolves_ret.
  - apply quiet_bind; [apply quiet_offer_save|]. intros _.
    eapply resolves_bind; [apply Hf|]. intros p' ? ->.
    assert (Hrest : ∀ q, resolves (run_levels todo q)
              (fun r s2 => match r with
                           | Some _ => ([s] ++ s2)%list = s :: ss
                           | None => True
                           end)).
    { intros q w. specialize (IH q w).
      destruct (run_levels todo q w) as [[[q'|]| |] w']; [| |done..].
      - destruct IH as (s2 & -> & ?). by exists ss.
      - destruct IH as (s2 & _ & ?). by exists s2. }
    destruct (hp p' <=? 0); [|apply Hrest].
    intros w. pose proof (recovery_resolves (run_levels todo) ss IH w) as H.
    destruct (recovery (run_levels todo) w) as [[[q'|]| |] w']; [| |done..].
    + destruct H as (s2 & -> & ?). by exists ss.
    + destruct H as (s2 & _ & ?). by exists s2.
Qed.

(** Every run that reaches its ending has resolved Town, Desert, Lab,
    Forest and then the boss twice, and has consumed six draws. *)
Lemma ended_run_stages (w w' : World) (tag : string) (fs : float) :
  main w = (Ok (Ended tag fs), w') ->
  stages_resolved (trace w')
  = (stages_resolved (trace w) ++ [Town; Desert; Lab; Forest; Boss; Boss])%list
  ∧ drawn w' = (drawn w + 6)%nat.
Proof.
  intros Hmain.
  assert (H : resolves main
                (fun e s => match e with
                            | Ended _ _ => s = [Town; Desert; Lab; Forest; Boss; Boss]
                            | Aborted => True
                            end)).
  { unfold main. apply quiet_bind; [apply quiet_setup|]. intros p.
    eapply resolves_bind; [apply run_levels_resolves, levels_play|].
    intros [p'|] s1 Hs1; [|by apply resolves_ret]. subst s1.
    unfold finale. eapply resolves_bind; [apply boss_final_plays|].
    intros [p2 [tag' fs']] ? ->.
    apply quiet_bind.
    { unfold endings. apply quiet_bind.
      { apply quiet_same. intros w0. unfold int_of_score.
        by destruct (Py.int_of_float fs'). }
      intros _. apply quiet_bind; [apply quiet_input|]. intros ans.
      destruct (Py.says_yes ans); [|by apply resolves_ret].
      apply quiet_bind; [|intros; by apply resolves_ret].
      apply quiet_same. intros w0.
      by destruct (append_result_total p2 tag' fs' w0) as (b & w1 & -> & _ & ? & ? & _). }
    intros _. apply quiet_bind; [|intros; by apply resolves_ret].
    unfold remove_checkpoint. apply quiet_bind; [apply quiet_path_exists|].
    intros present. destruct present; [|by apply resolves_ret].
    apply quiet_same. intros w0. unfold try_except, os_remove.
    destruct (faults w0 Remove); [done|]. by destruct (save_file w0). }
  specialize (H w). rewrite Hmain in H. by destruct H as (ss & -> & ? & ?).
Qed.

(** C1 on a run without any failure: the loop resolves Town, Desert, Lab,
    Forest and the boss, and the boss is then resolved a second time after
    the loop.  Six draws are consumed; the first boss resolution (choice 3,
    tag victory_alliance) is dropped and the ending carries the tag of the
    second one (choice 1, victory_force). *)
Theorem boss_resolved_twice :
  let r := main (world_of clean_input 0.9 None) in
  r.1 = Ok (Ended "victory_force" 93)
  ∧ stages_resolved (trace r.2) = [Town; Desert; Lab; Forest; Boss; Boss]
  ∧ boss_resolutions (trace r.2) = [(3, "victory_alliance"); (1, "victory_force")]
  ∧ drawn r.2 = 6%nat
  ∧ stdin r.2 = [].
Proof.
  cbv zeta. split; [vm_compute; reflexivity|]. split; [vm_compute; reflexivity|].
  split; [vm_compute; reflexivity|]. split; vm_compute; reflexivity.
Qed.

(** C3 on two runs.  A run that loads at start a checkpoint whose record is
    at stage 3 skips the introduction and plays Town, Desert and Lab again.
    A run that reloads, after losing its last hit point in Lab, the
    checkpoint it saved before Town (stage 0) goes on with Forest. *)
Theorem resume_ignores_recorded_stage :
  (let r := main (world_of resume_input 0.9 stage_3_file) in
   head (trace r.2) = Some (EvStart at_stage_3)
   ∧ stage at_stage_3 = 3
   ∧ stages_resolved (trace r.2) = [Town; Desert; Lab; Forest; Boss; Boss])
  ∧ (let r := main (world_of reload_input 0.1 None) in
     trace r.2 !! 5%nat = Some (EvReload saved_before_town)
     ∧ stage saved_before_town = 0
     ∧ stages_resolved (take 5 (trace r.2)) = [Town; Desert; Lab]
     ∧ stages_resolved (drop 6 (trace r.2)) = [Forest; Boss; Boss]).
Proof.
  split; cbv zeta.
  - split; [vm_compute; reflexivity|]. split; [reflexivity|].
    vm_compute; reflexivity.
  - split; [vm_compute; reflexivity|]. split; [reflexivity|].
    split; vm_compute; reflexivity.
Qed.

(** * Further properties of the code *)

(** ** Reading a choice *)

(** X1: [ask_int] returns the number of the first line it accepts, leaves
    the lines after it on standard input and touches nothing else; the
    number is one of the valid options when there are any.  When no line is
    accepted it consumes them all and raises [EOFError], the only exception
    it lets through. *)
Theorem ask_int_first_accepted (valid : gset Z) (w : World) :
  match ask_int valid w with
  | (Ok n, w') =>
      ∃ skipped line rest,
        stdin w = (skipped ++ line :: rest)%list
        ∧ Forall (fun l => accepted valid l = None) skipped
        ∧ accepted valid line = Some n
        ∧ (valid ≠ ∅ -> n ∈ valid)
        ∧ w' = set_stdin rest w
  | (Raise e, w') =>
      e = EOFError
      ∧ Forall (fun l => accepted valid l = None) (stdin w)
      ∧ w' = set_stdin [] w
  | (Untyped, _) => False
  end.
Proof.
  unfold ask_int.
  assert (H : ∀ lines,
    match ask_int_from valid lines with
    | (Ok n, rest) =>
        ∃ skipped line,
          lines = (skipped ++ line :: rest)%list
          ∧ Forall (fun l => accepted valid l = None) skipped
          ∧ accepted valid line = Some n
          ∧ (valid ≠ ∅ -> n ∈ valid)
    | (Raise e, rest) =>
        e = EOFError ∧ Forall (fun l => accepted valid l = None) lines ∧ rest = []
    | (Untyped, _) => False
    end).
  { induction lines as [|line lines IH]; cbn [ask_int_from]; [done|].
    pose proof (eq_refl (accepted valid line)) as Hacc. unfold accepted at 2 in Hacc.
    destruct (Py.int (Py.strip line)) as [num|].
    - destruct (bool_decide (valid ≠ ∅) && bool_decide (num ∉ valid)) eqn:Hv.
      + destruct (ask_int_from valid lines) as [[n| |] rest]; [| |done].
        * destruct IH as (skipped & l & -> & Hs & Hl & Hn).
          exists (line :: skipped), l. split; [done|]. split; [by constructor|done].
        * destruct IH as (-> & Hs & ->). split; [done|]. split; [by constructor|done].
      + exists [], line. split; [done|]. split; [done|]. split; [done|].
        intros Hne. apply andb_false_iff in Hv as [Hv|Hv].
        * by apply bool_decide_eq_false in Hv.
        * apply bool_decide_eq_false in Hv. by apply dec_stable.
    - destruct (ask_int_from valid lines) as [[n| |] rest]; [| |done].
      + destruct IH as (skipped & l & -> & Hs & Hl & Hn).
        exists (line :: skipped), l. split; [done|]. split; [by constructor|done].
      + destruct IH as (-> & Hs & ->). split; [done|]. split; [by constructor|done]. }
  specialize (H (stdin w)).
  destruct (ask_int_from valid (stdin w)) as [[n| |] rest]; [| |done].
  - destruct H as (skipped & line & ? & ? & ? & ?). by exists skipped, line, rest.
  - by destruct H as (-> & ? & ->).
Qed.

(** ** What the resolvers depend on *)

Lemma has_item_append (x item : string) (p : Player) :
  x ≠ item -> has_item x (append_item item p) = has_item x p.
Proof.
  intros Hne. unfold has_item, append_item. cbn.
  apply bool_decide_ext. rewrite elem_of_app, list_elem_of_singleton. naive_solver.
Qed.

(** X2: the item bonus of the boss resolution depends only on whether the
    inventory holds a Vaccine Sample, holds Game Meat or Canned Food, and
    holds an Energy Cell: copies of an item do not add up, and Game Meat and
    Canned Food together count once. *)
Theorem inventory_bonus_by_membership (p q : Player) :
  ("Vaccine Sample" ∈ inventory p ↔ "Vaccine Sample" ∈ inventory q) ->
  (("Game Meat" ∈ inventory p ∨ "Canned Food" ∈ inventory p)
   ↔ ("Game Meat" ∈ inventory q ∨ "Canned Food" ∈ inventory q)) ->
  ("Energy Cell" ∈ inventory p ↔ "Energy Cell" ∈ inventory q) ->
  inventory_bonus p = inventory_bonus q.
Proof.
  intros Hv Hm He. unfold inventory_bonus, has_item.
  rewrite (bool_decide_ext _ _ Hv), (bool_decide_ext _ _ He).
  assert (Hor : (bool_decide ("Game Meat" ∈ inventory p)
                 || bool_decide ("Canned Food" ∈ inventory p))
                = (bool_decide ("Game Meat" ∈ inventory q)
                   || bool_decide ("Canned Food" ∈ inventory q))).
  { rewrite <- !bool_decide_or. by apply bool_decide_ext. }
  by rewrite Hor.
Qed.

Lemma inventory_bonus_by_membership_witness :
  inventory_bonus (set_inventory ["Canned Food"; "Game Meat"; "Canned Food"] warrior)
  = inventory_bonus (set_inventory ["Game Meat"] warrior).
Proof.
  apply inventory_bonus_by_membership; cbn; set_solver.
Defined.

(** X3: the character matters in Town and in the boss resolution only: in
    Desert, Lab and Forest a player with another character gets the same
    outcome line and the same changes. *)
Theorem character_ignored_after_town (s : Stage) outcome (c : option string)
    (p : Player) (choice : Z) (r : float) :
  outcome_of s = Some outcome ->
  s ≠ Town ->
  outcome (set_char c p) choice r
  = (set_char c (outcome p choice r).1, (outcome p choice r).2).
Proof.
  destruct s; intros [= <-] Hs; try done;
    unfold desert_outcome, lab_outcome, forest_outcome,
      desert_luck, lab_luck, forest_luck, has_item; cbn [inventory set_char];
    split_outcome; reflexivity.
Qed.

Lemma character_ignored_after_town_witness :
  outcome_of Lab = Some lab_outcome ∧ Lab ≠ Town
  ∧ lab_outcome (set_char (Some "Scholar") warrior) 2 0.9
    = (set_char (Some "Scholar") (lab_outcome warrior 2 0.9).1,
       (lab_outcome warrior 2 0.9).2).
Proof.
  split; [reflexivity|]. split; [discriminate|].
  exact (character_ignored_after_town Lab lab_outcome (Some "Scholar") warrior 2 0.9
           eq_refl ltac:(discriminate)).
Defined.

(** X4: only six item names are ever looked for.  Appending any other item
    to the inventory (Spare Parts, Toolkit and Fresh Water, which the
    levels hand out, included) changes no luck value of a level and no item
    bonus of the boss resolution. *)
Theorem other_items_are_inert (item : string) (s : Stage) (p : Player) (r : float) :
  item ∉ effective_items ->
  luck s (append_item item p) r = luck s p r
  ∧ inventory_bonus (append_item item p) = inventory_bonus p.
Proof.
  intros Hitem. unfold effective_items in Hitem.
  assert (Hne : ∀ x, x ∈ effective_items -> x ≠ item) by (intros x Hx ->; done).
  split.
  - destruct s; cbn [luck]; unfold town_luck, desert_luck, lab_luck, forest_luck;
      try reflexivity; rewrite has_item_append; try reflexivity;
      apply Hne; unfold effective_items; set_solver.
  - unfold inventory_bonus.
    rewrite !has_item_append; [reflexivity|apply Hne; unfold effective_items; set_solver..].
Qed.

Lemma other_items_are_inert_witness :
  ("Toolkit" ∉ effective_items)
  ∧ luck Forest (append_item "Toolkit" warrior) 0.5 = luck Forest warrior 0.5
  ∧ inventory_bonus (append_item "Toolkit" warrior) = inventory_bonus warrior.
Proof.
  assert (H : "Toolkit" ∉ effective_items) by (unfold effective_items; set_solver).
  split; [exact H|].
  exact (other_items_are_inert "Toolkit" Forest warrior 0.5 H).
Defined.

(** ** More on the checkpoint store *)

(** X5: a key missing from the dictionary gets the value a new player
    has ([hp] 3, [score] 0, no [char], empty [inventory], [stage] 0; name
    "player" and language "en"), the other fields are read as stored, and
    keys other than the seven are ignored.  An empty object loads as a new
    player named "player". *)
Theorem from_dict_defaults (p : Player) :
  typed (from_dict ∅) = Some (new_player "player" "en")
  ∧ typed (from_dict (delete "name" (to_dict p)))
    = Some (mkPlayer "player" (hp p) (score p) (char p) (inventory p) (lang p) (stage p))
  ∧ typed (from_dict (delete "hp" (to_dict p))) = Some (set_hp 3 p)
  ∧ typed (from_dict (delete "score" (to_dict p))) = Some (set_score 0 p)
  ∧ typed (from_dict (delete "char" (to_dict p))) = Some (set_char None p)
  ∧ typed (from_dict (delete "inventory" (to_dict p))) = Some (set_inventory [] p)
  ∧ typed (from_dict (delete "lang" (to_dict p))) = Some (set_lang "en" p)
  ∧ typed (from_dict (delete "stage" (to_dict p))) = Some (set_stage 0 p)
  ∧ ∀ (d : gmap string json) (k : string) (v : json),
      k ∉ ["name"; "hp"; "score"; "char"; "inventory"; "lang"; "stage"] ->
      from_dict (<[k:=v]> d) = from_dict d.
Proof.
  assert (Hget : ∀ k q, from_dict (delete k (to_dict p)) = stored_of q ->
                        typed (from_dict (delete k (to_dict p))) = Some q).
  { intros k q ->. apply typed_stored_of. }
  repeat lazymatch goal with |- _ ∧ _ => split end.
  - reflexivity.
  - apply (Hget "name" (mkPlayer "player" _ _ _ _ _ _)). by destruct p.
  - apply Hget. by destruct p.
  - apply Hget. by destruct p.
  - apply Hget. by destruct p.
  - apply Hget. by destruct p.
  - apply Hget. by destruct p.
  - apply Hget. by destruct p.
  - intros d k v Hk. unfold from_dict, get.
    rewrite !lookup_insert_ne; [reflexivity|intros ->; apply Hk; set_solver..].
Qed.

(** X6: [load_checkpoint] returns a player exactly when the file can be
    opened for reading and holds a JSON object, and then it is the player
    [from_dict] makes of that object; a document that is not an object (a
    list, a number, a string, null) counts as no checkpoint. *)
Theorem load_checkpoint_iff (w : World) (s : Stored) :
  load_checkpoint w = (Ok (Some s), w)
  ↔ faults w OpenRead = false
    ∧ ∃ o, save_file w = Some (Doc (JObj o)) ∧ s = from_dict o.
Proof.
  unfold load_checkpoint, path_exists, open_read, json_load, Player_from_dict.
  unfold_monad. destruct w as [ins g n file res flt clk tr]. cbn.
  destruct file as [[|j]|]; cbn.
  - destruct (flt OpenRead); cbn; split; [done|naive_solver|done|naive_solver].
  - destruct (flt OpenRead); cbn; [split; [done|naive_solver]|].
    destruct j; cbn; split; try done; try naive_solver.
  - split; [done|naive_solver].
Qed.

Lemma save_checkpoint_ok (p : Player) (w : World) :
  faults w OpenWrite = false -> faults w WriteData = false ->
  save_checkpoint p w = (Ok true, set_save_file (Some (Doc (JObj (to_dict p)))) w).
Proof.
  intros Ho Hd. unfold save_checkpoint, open_write, json_dump. unfold_monad.
  rewrite Ho. cbn. rewrite Hd. reflexivity.
Qed.

Lemma load_after_save (p : Player) (w : World) :
  faults w OpenRead = false ->
  load_checkpoint (set_save_file (Some (Doc (JObj (to_dict p)))) w)
  = (Ok (Some (stored_of p)), set_save_file (Some (Doc (JObj (to_dict p)))) w).
Proof.
  intros Hr. unfold load_checkpoint, path_exists, open_read. unfold_monad. cbn.
  rewrite Hr. cbn. by rewrite from_dict_to_dict.
Qed.



(** X8: what a failed save leaves behind.  When the file cannot be opened
    for writing, [save_checkpoint] returns [False] and changes nothing: an
    earlier checkpoint is still there.  When the file opens but the write
    fails, it returns [False] as well, but the earlier checkpoint is gone:
    the file was truncated on opening and [load_checkpoint] now returns
    [None]. *)
Theorem failed_save_effects (p : Player) (w : World) :
  (faults w OpenWrite = true -> save_checkpoint p w = (Ok false, w))
  ∧ (faults w OpenWrite = false -> faults w WriteData = true ->
     save_checkpoint p w = (Ok false, set_save_file (Some Garbage) w)
     ∧ load_checkpoint (set_save_file (Some Garbage) w)
       = (Ok None, set_save_file (Some Garbage) w)).
Proof.
  split.
  - intros Ho. unfold save_checkpoint, open_write. unfold_monad. by rewrite Ho.
  - intros Ho Hd. split.
    + unfold save_checkpoint, open_write, json_dump. unfold_monad.
      rewrite Ho. cbn. by rewrite Hd.
    + unfold load_checkpoint, path_exists, open_read, json_load. unfold_monad. cbn.
      by destruct (faults w OpenRead).
Qed.

(** ** The scenes *)

Lemma same_env_refl (w : World) : same_env w w.
Proof. by repeat split. Qed.

Lemma same_env_trans (w1 w2 w3 : World) :
  same_env w1 w2 -> same_env w2 w3 -> same_env w1 w3.
Proof.
  intros (? & ? & ? & ?) (? & ? & ? & ?). repeat split; congruence.
Qed.

Lemma console_ret {A} (a : A) : console (mret a : M A).
Proof. intros w. apply same_env_refl. Qed.

Lemma console_bind {A B} (m : M A) (k : A -> M B) :
  console m -> (∀ a, console (k a)) -> console (m ≫= k).
Proof.
  intros Hm Hk w. rewrite bind_run. specialize (Hm w).
  destruct (m w) as [[a| |] w1]; [|done..].
  eapply same_env_trans; [exact Hm|apply Hk].
Qed.

Lemma console_input : console input.
Proof. intros w. unfold input. destruct (stdin w); by repeat split. Qed.

Lemma console_ask_int (valid : gset Z) : console (ask_int valid).
Proof.
  intros w. destruct (ask_int_run valid w) as (r & rest & ->). by repeat split.
Qed.

Lemma console_random : console random.
Proof. intros w. by repeat split. Qed.

Lemma console_emit (e : event) : console (emit e).
Proof. intros w. by repeat split. Qed.

Lemma console_summary (p : Player) : console (summary p).
Proof.
  unfold summary. apply console_bind; [apply console_input|].
  intros. apply console_ret.
Qed.

Lemma console_intro (p : Player) : console (intro p).
Proof.
  unfold intro. apply console_bind; [apply console_ask_int|]. intros ch.
  apply console_bind; [apply console_emit|]. intros _.
  apply console_bind; [apply console_input|]. intros _. apply console_ret.
Qed.

Lemma console_level (s : Stage) (index : Z) outcome (p : Player) :
  console (level s index outcome p).
Proof.
  unfold level. apply console_bind; [apply console_ask_int|]. intros choice.
  apply console_bind; [apply console_random|]. intros r.
  destruct (outcome _ choice r) as [p' line].
  apply console_bind; [apply console_emit|]. intros _.
  apply console_bind; [apply console_summary|]. intros _. apply console_ret.
Qed.

Lemma console_boss_final (p : Player) : console (boss_final p).
Proof.
  unfold boss_final. apply console_bind; [apply console_ask_int|]. intros choice.
  apply console_bind; [apply console_random|]. intros r.
  destruct (boss_outcome _ choice r) as [[tag fs]|]; [|intros w; apply same_env_refl].
  apply console_bind; [apply console_emit|]. intros _. apply console_ret.
Qed.

(** X9: the scenes only talk to the console.  Whatever the input and
    however they end, the character selection, the four levels, the boss
    scene, the status summary and [ask_int] leave the checkpoint file and
    the result log untouched. *)
Theorem scenes_leave_files_alone (p : Player) (valid : gset Z) :
  console (intro p)
  ∧ console (level_town p) ∧ console (level_desert p)
  ∧ console (level_lab p) ∧ console (level_forest p)
  ∧ console (boss_final p)
  ∧ console (summary p) ∧ console (ask_int valid).
Proof.
  repeat lazymatch goal with |- _ ∧ _ => split end.
  - apply console_intro.
  - apply console_level.
  - apply console_level.
  - apply console_level.
  - apply console_level.
  - apply console_boss_final.
  - apply console_summary.
  - apply console_ask_int.
Qed.

Lemma outcome_frame (s : Stage) outcome (p : Player) (choice : Z) (r : float) :
  outcome_of s = Some outcome ->
  let p' := (outcome p choice r).1 in
  name p' = name p ∧ char p' = char p ∧ lang p' = lang p ∧ stage p' = stage p
  ∧ (inventory p' = inventory p
     ∨ ∃ item : string, inventory p' = (inventory p ++ [item])%list).
Proof.
  destruct s; intros [= <-]; cbv zeta;
    unfold town_outcome, desert_outcome, lab_outcome, forest_outcome;
    split_outcome; cbn; eauto 10.
Qed.

(** X10: a level changes neither the name, the character nor the language
    of the player, never removes an item from the inventory (it appends at
    most one), raises [stage] to the index of the level unless it is already
    higher, and consumes exactly one draw. *)
Theorem level_keeps_identity (s : Stage) (index : Z) outcome (p : Player) (w : World) :
  outcome_of s = Some outcome ->
  match level s index outcome p w with
  | (Ok p', w') =>
      name p' = name p ∧ char p' = char p ∧ lang p' = lang p
      ∧ stage p' = stage p `max` index
      ∧ (inventory p' = inventory p
         ∨ ∃ item : string, inventory p' = (inventory p ++ [item])%list)
      ∧ drawn w' = S (drawn w)
  | _ => True
  end.
Proof.
  intros Hs. unfold level. rewrite bind_run.
  destruct (ask_int_run {[1; 2; 3]} w) as (rc & rest & ->).
  destruct rc as [choice| |]; [|done..].
  rewrite bind_run. cbn.
  pose proof (outcome_frame s outcome (set_stage (stage p `max` index) p) choice
                (rng w (drawn w)) Hs) as Hf.
  destruct (outcome _ choice _) as [p' line]. cbn in Hf.
  rewrite bind_run. cbn. unfold summary. rewrite !bind_run. unfold input. cbn.
  destruct rest; [done|]. cbn. naive_solver.
Qed.

Lemma level_keeps_identity_witness :
  outcome_of Town = Some town_outcome
  ∧ match level Town 1 town_outcome warrior (world_of ["1"; ""] 0.9 None) with
    | (Ok p', w') =>
        name p' = name warrior ∧ char p' = char warrior ∧ lang p' = lang warrior
        ∧ stage p' = stage warrior `max` 1
        ∧ (inventory p' = inventory warrior
           ∨ ∃ item : string, inventory p' = (inventory warrior ++ [item])%list)
        ∧ drawn w' = S (drawn (world_of ["1"; ""] 0.9 None))
    | _ => True
    end.
Proof.
  split; [reflexivity|].
  exact (level_keeps_identity Town 1 town_outcome warrior
           (world_of ["1"; ""] 0.9 None) eq_refl).
Defined.

(** ** The start and the end of a run *)

Lemma intro_sets_char (p : Player) (w w' : World) (p' : Player) :
  intro p w = (Ok p', w') ->
  ∃ c, c ∈ ["Trickster"; "Warrior"; "Scholar"; ""] ∧ p' = set_char (Some c) p.
Proof.
  unfold intro. intros H.
  apply bind_ok_inv in H as (ch & w1 & _ & H).
  apply bind_ok_inv in H as (_ & w2 & _ & H).
  apply bind_ok_inv in H as (_ & w3 & _ & H).
  injection H as <- _.
  case_bool_decide; [exists ""; split; [set_solver|done]|].
  destruct (ch =? 1); [eexists; split; [|done]; set_solver|].
  destruct (ch =? 2); eexists; (split; [|done]); set_solver.
Qed.

(** X11: when there is no checkpoint file, [main] starts from a new
    player: three hit points, no score, an empty inventory, stage 0, a
    character chosen in the introduction, the language chosen at the first
    prompt, and, in English, a name that is not empty (a blank entry gives
    "Player"). *)
Theorem new_game_player (w w' : World) (p : Player) :
  save_file w = None ->
  setup w = (Ok p, w') ->
  hp p = 3 ∧ score p = 0 ∧ inventory p = [] ∧ stage p = 0
  ∧ (∃ c, char p = Some c ∧ c ∈ ["Trickster"; "Warrior"; "Scholar"; ""])
  ∧ lang p ∈ ["en"; "ar"]
  ∧ (lang p = "en" -> name p ≠ "").
Proof.
  intros Hfile Hrun. unfold setup in Hrun.
  apply bind_ok_inv in Hrun as (lang_choice & w1 & Hask & Hrun).
  destruct (ask_int_run {[1; 2]} w) as (r & rest & Heq). rewrite Heq in Hask.
  injection Hask as -> <-.
  apply bind_ok_inv in Hrun as (present & w2 & Hp & Hrun).
  unfold path_exists in Hp. cbn in Hp. rewrite Hfile in Hp. injection Hp as <- <-.
  apply bind_ok_inv in Hrun as (loaded & w3 & Hl & Hrun). injection Hl as <- <-.
  apply bind_ok_inv in Hrun as (p0 & w4 & Hname & Hrun).
  apply bind_ok_inv in Hname as (line & w5 & _ & Hname). injection Hname as <- _.
  apply bind_ok_inv in Hrun as (_ & w6 & _ & Hrun).
  cbn [stage new_player] in Hrun. change (0 =? 0) with true in Hrun. cbn match in Hrun.
  apply intro_sets_char in Hrun as (c & Hc & ->). cbn.
  repeat lazymatch goal with |- _ ∧ _ => split end; try done.
  - by exists c.
  - destruct (lang_choice =? 1); set_solver.
  - destruct (lang_choice =? 1); [|done]. intros _.
    case_bool_decide as Hn; [done|exact Hn].
Qed.

Lemma new_game_player_witness :
  ∃ p w', setup (world_of ["1"; "  "; "3"; ""] 0.5 None) = (Ok p, w')
          ∧ hp p = 3 ∧ name p = "Player" ∧ char p = Some "Scholar".
Proof.
  eexists _, _. split; [vm_compute; reflexivity|].
  pose proof (new_game_player (world_of ["1"; "  "; "3"; ""] 0.5 None) _ _
                eq_refl eq_refl) as H.
  split; [exact (proj1 H)|]. split; reflexivity.
Defined.

Lemma append_result_spec (p : Player) (tag : string) (fs : float) (n : Z) (w : World) :
  Py.int_of_float fs = Some n ->
  ∃ b w', append_result p tag fs w = (Ok b, w')
    ∧ save_file w' = save_file w ∧ trace w' = trace w
    ∧ faults w' = faults w ∧ clock w' = clock w
    ∧ (results_file w' = results_file w
       ∨ results_file w' = (results_file w ++ [log_line (clock w) p tag n])%list).
Proof.
  intros Hn.
  unfold append_result, open_append, utcnow_isoformat, int_of_score, write_line.
  unfold_monad. rewrite Hn.
  destruct (faults w OpenAppend); cbn; [eexists _, _; by eauto 10|].
  destruct (faults w AppendData); cbn; eexists _, _; (split; [done|]); cbn; eauto 10.
Qed.

Lemma boss_final_spec (p : Player) (w : World) :
  match boss_final p w with
  | (Ok (p', (tag, fs)), w') =>
      p' = set_stage (stage p `max` 5) p
      ∧ (∃ choice draw, trace w' = (trace w ++ [EvBoss choice draw tag fs p'])%list)
      ∧ same_env w w'
  | (_, w') => same_env w w'
  end.
Proof.
  pose proof (console_boss_final p w) as Henv.
  unfold boss_final in *. rewrite bind_run in *.
  destruct (ask_int_run {[1; 2; 3]} w) as (rc & rest & Heq). rewrite Heq in *.
  destruct rc as [choice| |]; [|done..].
  rewrite bind_run in *. cbn in *.
  destruct (boss_outcome _ choice _) as [[tag fs]|]; [|done].
  rewrite bind_run in *. cbn in *. split; [done|]. split; [|done]. eauto.
Qed.

Lemma endings_spec (tag : string) (fs : float) (p : Player) (w : World) :
  match endings tag fs p w with
  | (Ok _, w') =>
      ∃ n, Py.int_of_float fs = Some n
           ∧ trace w' = trace w ∧ save_file w' = save_file w
           ∧ faults w' = faults w
           ∧ (results_file w' = results_file w
              ∨ results_file w' = (results_file w ++ [log_line (clock w) p tag n])%list)
  | (_, w') => results_file w' = results_file w
  end.
Proof.
  unfold endings. rewrite bind_run. unfold int_of_score.
  destruct (Py.int_of_float fs) as [n|] eqn:Hn; [|done]. cbn.
  rewrite bind_run. unfold input.
  destruct (stdin w) as [|ans rest] eqn:Hin; [done|].
  set (w1 := set_stdin rest w).
  destruct (Py.says_yes ans); [|exists n; by eauto 10].
  destruct (append_result_spec p tag fs n w1 Hn)
    as (b & w2 & Heq & Hsf & Htr & Hfl & Hck & Hres).
  rewrite bind_run, Heq. cbn. exists n. by eauto 10.
Qed.

Lemma remove_checkpoint_spec (w : World) :
  ∃ w', remove_checkpoint w = (Ok tt, w')
        ∧ results_file w' = results_file w ∧ trace w' = trace w
        ∧ (faults w Remove = false -> save_file w' = None).
Proof.
  unfold remove_checkpoint, path_exists, try_except, os_remove.
  rewrite bind_run. cbn.
  destruct (save_file w) eqn:Hf; cbn; [|by eexists].
  destruct (faults w Remove); cbn; [by eexists|]. rewrite Hf. by eexists.
Qed.

(** What the part of [main] after the loop does: one more boss resolution,
    shown last in the trace, at most one line added to the log, and the
    checkpoint removed unless the removal fails; when it raises, the log is
    as before. *)
Lemma finale_spec (p : Player) (w : World) :
  match finale p w with
  | (Ok e, w') =>
      ∃ choice draw tag fs n,
        let p' := set_stage (stage p `max` 5) p in
        e = Ended tag fs
        ∧ Py.int_of_float fs = Some n
        ∧ trace w' = (trace w ++ [EvBoss choice draw tag fs p'])%list
        ∧ (results_file w' = results_file w
           ∨ results_file w' = (results_file w ++ [log_line (clock w) p' tag n])%list)
        ∧ (faults w Remove = false -> save_file w' = None)
  | (_, w') => results_file w' = results_file w
  end.
Proof.
  unfold finale. rewrite bind_run.
  pose proof (boss_final_spec p w) as Hb.
  destruct (boss_final p w) as [[[p' [tag fs]]| |] w1];
    [|by destruct Hb as (_ & ? & _)..].
  destruct Hb as (-> & (choice & draw & Ht1) & (Hsf1 & Hr1 & Hfl1 & Hck1)).
  set (q := set_stage (stage p `max` 5) p) in *. cbn beta iota.
  rewrite bind_run. pose proof (endings_spec tag fs q w1) as He.
  destruct (endings tag fs q w1) as [[[]| |] w2]; [|congruence..].
  destruct He as (n & Hn & Ht2 & Hsf2 & Hfl2 & Hres).
  rewrite bind_run.
  destruct (remove_checkpoint_spec w2) as (w3 & -> & Hr3 & Ht3 & Hs3). cbn.
  exists choice, draw, tag, fs, n.
  split; [done|]. split; [done|]. split; [congruence|].
  split; [destruct Hres as [Hres|Hres]; [left|right]; congruence|].
  intros Hno. apply Hs3. congruence.
Qed.

Lemma save_checkpoint_env (p : Player) (w : World) :
  let w' := (save_checkpoint p w).2 in
  faults w' = faults w ∧ clock w' = clock w ∧ results_file w' = results_file w.
Proof.
  unfold save_checkpoint, open_write, json_dump. unfold_monad.
  destruct (faults w OpenWrite); cbn; [done|].
  by destruct (faults w WriteData).
Qed.

(** Faults, clock and log at the end of the loop are those of the start. *)
Lemma env_until_finale (w : World) :
  let w2 := ((setup ≫= run_levels levels) w).2 in
  faults w2 = faults w ∧ clock w2 = clock w ∧ results_file w2 = results_file w.
Proof.
  assert (H : keeps (fun w' => faults w' = faults w ∧ clock w' = clock w
                               ∧ results_file w' = results_file w)
                (setup ≫= run_levels levels) (fun _ => True)).
  { eapply keeps_weaken.
    - apply keeps_before_finale with (good := fun _ => True) (okay := fun _ => True);
        try done.
      intros p w0 _ (? & ? & ?).
      destruct (save_checkpoint_env p w0) as (? & ? & ?). repeat split; congruence.
    - done. }
  specialize (H w ltac:(done)). cbv zeta.
  destruct ((setup ≫= run_levels levels) w) as [[?| |] ?]; [by destruct H|done..].
Qed.

Lemma main_run (w : World) :
  main w = match (setup ≫= run_levels levels) w with
           | (Ok (Some p), w2) => finale p w2
           | (Ok None, w2) => (Ok Aborted, w2)
           | (Raise e, w2) => (Raise e, w2)
           | (Untyped, w2) => (Untyped, w2)
           end.
Proof.
  unfold main. rewrite !bind_run.
  destruct (setup w) as [[p| |] w1]; [|done..].
  rewrite bind_run. by destruct (run_levels levels p w1) as [[[?|]| |] ?].
Qed.

(** X12: a run that reaches its ending removes the checkpoint file, unless
    the removal itself fails. *)
Theorem completed_run_removes_checkpoint (w w' : World) (tag : string) (fs : float) :
  main w = (Ok (Ended tag fs), w') ->
  faults w Remove = false ->
  save_file w' = None.
Proof.
  intros Hmain Hrm. rewrite main_run in Hmain.
  pose proof (env_until_finale w) as (Hf & _ & _). cbv zeta in Hf.
  destruct ((setup ≫= run_levels levels) w) as [[[p|]| |] w2]; try discriminate.
  cbn in Hf. pose proof (finale_spec p w2) as Hfin. rewrite Hmain in Hfin.
  destruct Hfin as (? & ? & ? & ? & ? & _ & _ & _ & _ & Hs).
  apply Hs. by rewrite Hf.
Qed.

Lemma completed_run_removes_checkpoint_witness :
  main (world_of reload_input 0.1 None)
  = (Ok (Ended "defeat_force" 15.25), (main (world_of reload_input 0.1 None)).2)
  ∧ faults (world_of reload_input 0.1 None) Remove = false
  ∧ save_file (main (world_of reload_input 0.1 None)).2 = None.
Proof.
  assert (H : main (world_of reload_input 0.1 None)
              = (Ok (Ended "defeat_force" 15.25),
                 (main (world_of reload_input 0.1 None)).2))
    by (vm_compute; reflexivity).
  split; [exact H|]. split; [reflexivity|].
  exact (completed_run_removes_checkpoint _ _ _ _ H eq_refl).
Defined.

(** X13: the result log only grows, and by one line at most: a run leaves
    the log as it found it, or it reaches its ending and appends the line of
    that ending (the tag, the score cut to an integer, and name, character
    and hit points of the player of the last boss resolution). *)
Theorem log_grows_by_one_line (w : World) :
  let r := main w in
  results_file r.2 = results_file w
  ∨ ∃ choice draw tag fs p n,
      r.1 = Ok (Ended tag fs)
      ∧ last (trace r.2) = Some (EvBoss choice draw tag fs p)
      ∧ Py.int_of_float fs = Some n
      ∧ results_file r.2 = (results_file w ++ [log_line (clock w) p tag n])%list.
Proof.
  cbv zeta. rewrite main_run.
  pose proof (env_until_finale w) as (_ & Hc & Hr). cbv zeta in Hc, Hr.
  destruct ((setup ≫= run_levels levels) w) as [[[p|]| |] w2]; cbn in *;
    [|by left..].
  pose proof (finale_spec p w2) as Hfin.
  destruct (finale p w2) as [[e| |] w3]; cbn; [|left; congruence..].
  destruct Hfin as (choice & draw & tag & fs & n & -> & Hn & Ht & Hres & _).
  destruct Hres as [Hres|Hres]; [left; congruence|]. right.
  exists choice, draw, tag, fs, (set_stage (stage p `max` 5) p), n.
  split; [done|]. split; [by rewrite Ht, last_snoc|]. split; [done|].
  by rewrite Hres, Hr, Hc.
Qed.



Lemma continues_monotone (t0 : list event) : trace_monotone (continues t0).
Proof.
  intros w w' Ht [new Hnew]. unfold continues.
  destruct Ht as [Ht|[e Ht]]; rewrite Ht, Hnew; [by exists new|].
  exists (new ++ [e])%list. by rewrite <- app_assoc.
Qed.

Lemma exhausted_since_monotone (t0 : list event) : trace_monotone (exhausted_since t0).
Proof.
  intros w w' Ht (new & e0 & Hnew & He0 & Hhp).
  unfold exhausted_since.
  destruct Ht as [Ht|[e Ht]]; rewrite Ht, Hnew; [by exists new, e0|].
  exists (new ++ [e])%list, e0. rewrite <- app_assoc.
  split; [done|]. split; [|done]. apply elem_of_app. by left.
Qed.

Lemma levels_record : Forall records levels.
Proof.
  assert (Hlevel : ∀ s index outcome, records (level s index outcome)).
  { intros s index outcome p w. unfold level. rewrite bind_run.
    destruct (ask_int_run {[1; 2; 3]} w) as (rc & rest & ->).
    destruct rc as [choice| |]; [|done..].
    rewrite bind_run. cbn. destruct (outcome _ choice _) as [p' line].
    rewrite bind_run. cbn. unfold summary. rewrite !bind_run. unfold input. cbn.
    destruct rest; [done|]. cbn. by eexists. }
  unfold levels. repeat apply Forall_cons_2; try apply Hlevel; [|done].
  intros p w. rewrite bind_run. pose proof (boss_final_spec p w) as Hb.
  destruct (boss_final p w) as [[[p' [tag fs]]| |] w1]; [|done..].
  destruct Hb as (-> & (choice & draw & Ht) & _). cbn.
  rewrite Ht. by eexists.
Qed.

Section Monotone.

Variable I : World -> Prop.
Hypothesis I_monotone : trace_monotone I.

Lemma monotone_stdin (v : list string) (w : World) : I w -> I (set_stdin v w).
Proof. apply I_monotone. by left. Qed.

Lemma monotone_drawn (v : nat) (w : World) : I w -> I (set_drawn v w).
Proof. apply I_monotone. by left. Qed.

Lemma monotone_emit (e : event) (w : World) :
  True -> I w -> I (set_trace (trace w ++ [e]) w).
Proof. intros _. apply I_monotone. right. by exists e. Qed.

Lemma monotone_save (p : Player) (w : World) :
  True -> I w -> I (save_checkpoint p w).2.
Proof.
  intros _. apply I_monotone. left.
  destruct (save_checkpoint_total p w) as (b & w1 & Heq & _ & _ & Ht & _).
  by rewrite Heq.
Qed.

Lemma monotone_lawful : Forall (lawful I (fun _ => True)) levels.
Proof.
  apply levels_lawful with (okay := fun _ => True); try done.
  - apply monotone_stdin.
  - apply monotone_drawn.
  - intros e w. apply monotone_emit.
Qed.

Lemma monotone_kept_by_loop (todo : list (Player -> M Player)) :
  Forall (lawful I (fun _ => True)) todo ->
  ∀ p, keeps I (run_levels todo p) (fun _ => True).
Proof.
  intros Hlaw p. eapply keeps_weaken.
  - apply keeps_run_levels with (good := fun _ => True) (okay := fun _ => True);
      try done.
    + apply monotone_stdin.
    + intros e w. apply monotone_emit.
    + apply monotone_save.
  - done.
Qed.

Lemma monotone_kept_by_recovery (todo : list (Player -> M Player)) :
  Forall (lawful I (fun _ => True)) todo ->
  keeps I (recovery (run_levels todo)) (fun _ => True).
Proof.
  intros Hlaw.
  apply keeps_recovery with (good := fun _ => True) (okay := fun _ => True);
    try done.
  - apply monotone_stdin.
  - intros e w. apply monotone_emit.
  - intros q _. by apply monotone_kept_by_loop.
Qed.

Lemma monotone_kept_by_setup : keeps I setup (fun _ => True).
Proof.
  apply keeps_setup with (okay := fun _ => True); try done.
  - apply monotone_stdin.
  - intros e w. apply monotone_emit.
Qed.

Lemma monotone_kept_by_offer (p : Player) : keeps I (offer_save p) (fun _ => True).
Proof.
  apply keeps_offer_save with (good := fun _ => True); try done.
  - apply monotone_stdin.
  - apply monotone_save.
Qed.

End Monotone.

(** When the loop returns through line 538, some level has left the
    player without hit points. *)
Lemma loop_returns_when_exhausted (t0 : list event) (todo : list (Player -> M Player)) :
  Forall records todo ->
  Forall (lawful (exhausted_since t0) (fun _ => True)) todo ->
  ∀ p w,
    continues t0 w ->
    match run_levels todo p w with
    | (Ok None, w') => exhausted_since t0 w'
    | _ => True
    end.
Proof.
  induction 1 as [|f todo Hf _ IH]; intros Hlaw p w Hw; cbn [run_levels]; [done|].
  apply Forall_cons in Hlaw as [_ Hlaw].
  rewrite bind_run.
  pose proof (monotone_kept_by_offer _ (continues_monotone t0) p w Hw) as Hw0.
  destruct (offer_save p w) as [[[]| |] w0]; [|done..].
  destruct Hw0 as [[new Hw0] _].
  rewrite bind_run. specialize (Hf p w0).
  destruct (f p w0) as [[p'| |] w1]; [|done..].
  destruct Hf as (e & Ht & Heq).
  destruct (hp p' <=? 0) eqn:Hhp.
  - assert (Hex : exhausted_since t0 w1).
    { exists (new ++ [e])%list, e. rewrite Ht, Hw0, <- app_assoc.
      split; [done|]. split; [|lia]. apply elem_of_app. right.
      by apply list_elem_of_singleton. }
    pose proof (monotone_kept_by_recovery _ (exhausted_since_monotone t0) todo
                  Hlaw w1 Hex) as Hk.
    by destruct (recovery (run_levels todo) w1) as [[[q|]| |] w2]; [| destruct Hk|..].
  - apply IH; [done|]. exists (new ++ [e])%list. by rewrite Ht, Hw0, <- app_assoc.
Qed.

(** X15: a run is only given up at the recovery point: when [main] returns
    without reaching an ending, some scene of this run has left the player
    with no hit points (an event the run has added to the trace says so). *)
Theorem abort_only_when_exhausted (w w' : World) :
  main w = (Ok Aborted, w') ->
  ∃ new e,
    trace w' = (trace w ++ new)%list ∧ e ∈ new ∧ hp (event_player e) ≤ 0.
Proof.
  intros Hmain. rewrite main_run, bind_run in Hmain.
  assert (Hw : continues (trace w) w) by (exists []; by rewrite app_nil_r).
  pose proof (monotone_kept_by_setup _ (continues_monotone (trace w)) w Hw) as Hw1.
  destruct (setup w) as [[p| |] w1]; [|discriminate..].
  destruct Hw1 as [Hw1 _].
  pose proof (loop_returns_when_exhausted (trace w) levels levels_record
                (monotone_lawful _ (exhausted_since_monotone (trace w))) p w1 Hw1)
    as Hloop.
  destruct (run_levels levels p w1) as [[[q|]| |] w2]; [| |discriminate..].
  - pose proof (finale_spec q w2) as Hfin. rewrite Hmain in Hfin.
    by destruct Hfin as (? & ? & ? & ? & ? & ? & _).
  - injection Hmain as <-. exact Hloop.
Qed.

Lemma abort_only_when_exhausted_witness :
  ∃ new e,
    trace (main (world_of foreign_input 0.1 foreign_file)).2
    = (trace (world_of foreign_input 0.1 foreign_file) ++ new)%list
    ∧ e ∈ new ∧ hp (event_player e) ≤ 0.
Proof.
  exact (abort_only_when_exhausted (world_of foreign_input 0.1 foreign_file)
           (main (world_of foreign_input 0.1 foreign_file)).2
           ltac:(vm_compute; reflexivity)).
Defined.

(** ** The ending shown, the introduction in Arabic, saving what was loaded *)

(** X16: every tag other than the three victories, the compromise and the
    betrayal gets the red line of the defeat: both defeat tags of the boss
    resolution share it, which leaves six different lines for seven tags.
    Victories are shown in green, the compromise in yellow. *)
Theorem ending_line_of_tag (tag : string) (p : Player) :
  (tag ∉ ["victory_force"; "victory_cunning"; "victory_alliance";
           "compromise"; "betrayed"] ->
   ending_line tag p = ending_line "defeat_force" p
   ∧ (ending_line tag p).2 = FG_RED)
  ∧ ending_line "defeat_cunning" p = ending_line "defeat_force" p
  ∧ (lang p = "en" ->
     NoDup ((fun t => (ending_line t p).1)
              <$> ["victory_force"; "victory_cunning"; "victory_alliance";
                   "compromise"; "betrayed"; "defeat_force"]))
  ∧ ((ending_line tag p).2 = FG_GREEN
     ↔ tag ∈ ["victory_force"; "victory_cunning"; "victory_alliance"])
  ∧ ((ending_line tag p).2 = FG_YELLOW ↔ tag = "compromise").
Proof.
  assert (Hcases : tag = "victory_force" ∨ tag = "victory_cunning"
                   ∨ tag = "victory_alliance" ∨ tag = "compromise"
                   ∨ tag = "betrayed"
                   ∨ tag ∉ ["victory_force"; "victory_cunning"; "victory_alliance";
                            "compromise"; "betrayed"]).
  { destruct (decide (tag ∈ ["victory_force"; "victory_cunning"; "victory_alliance";
                             "compromise"; "betrayed"])) as [Hin|Hout];
      [|by do 5 right].
    set_solver. }
  assert (Helse : tag ∉ ["victory_force"; "victory_cunning"; "victory_alliance";
                         "compromise"; "betrayed"] ->
                  ending_line tag p = ending_line "defeat_force" p).
  { intros Hout. unfold ending_line.
    repeat match goal with
           | |- context [bool_decide (?a = ?b)] =>
               rewrite (bool_decide_eq_false_2 (a = b))
                 by (intros Heq;
                     first [discriminate Heq
                           | apply Hout; rewrite Heq; set_solver])
           end.
    reflexivity. }
  repeat lazymatch goal with |- _ ∧ _ => split end.
  - intros Hout. split; [by apply Helse|]. by rewrite (Helse Hout).
  - reflexivity.
  - intros Hen. unfold ending_line, say. cbn. rewrite Hen. cbn. compute_done.
  - destruct Hcases as [->|[->|[->|[->|[->|Hout]]]]];
      try (rewrite (Helse Hout)); cbn; (split; [try done|]).
    all: try (intros _; set_solver).
    all: try (intros Hin; exfalso; set_solver).
  - destruct Hcases as [->|[->|[->|[->|[->|Hout]]]]];
      try (rewrite (Helse Hout)); cbn; (split; [try done|]).
    all: try done.
    intros ->. exfalso. apply Hout. set_solver.
Qed.



Lemma mapM_as_str_inv (l : list json) (inv : list string) :
  mapM as_str l = Some inv -> l = JStr <$> inv.
Proof.
  revert inv. induction l as [|j l IH]; intros inv H.
  - by injection H as <-.
  - cbn in H. destruct j; try discriminate. cbn in H.
    destruct (mapM as_str l) as [inv'|] eqn:Hl; [|discriminate].
    injection H as <-. cbn. by rewrite (IH inv' eq_refl).
Qed.

Lemma typed_inv (s : Stored) (p : Player) : typed s = Some p -> s = stored_of p.
Proof.
  destruct s as [n h sc c inv lg st]. unfold typed. cbn. intros H.
  destruct n; try discriminate. destruct h; try discriminate.
  destruct sc; try discriminate. cbn in H.
  assert (Hrest : ∀ l items,
             mapM as_str l = Some items -> l = JStr <$> items)
    by apply mapM_as_str_inv.
  destruct c as [| | | | c | |]; try discriminate; cbn in H.
  - destruct inv as [| | | | |l|]; try discriminate; cbn in H.
    destruct (mapM as_str l) as [items|] eqn:Hl; [|discriminate]. cbn in H.
    destruct lg; try discriminate. destruct st; try discriminate. cbn in H.
    injection H as <-. by rewrite (Hrest _ _ Hl).
  - destruct inv as [| | | | |l|]; try discriminate; cbn in H.
    destruct (mapM as_str l) as [items|] eqn:Hl; [|discriminate]. cbn in H.
    destruct lg; try discriminate. destruct st; try discriminate. cbn in H.
    injection H as <-. by rewrite (Hrest _ _ Hl).
Qed.

(** X18: saving a player that was loaded from a checkpoint writes a file
    that loads as the same player again: the save keeps the seven fields
    as they were read (keys the program does not know are dropped). *)
Theorem save_after_load (w : World) (s : Stored) (p : Player) :
  load_checkpoint w = (Ok (Some s), w) ->
  typed s = Some p ->
  faults w OpenWrite = false ->
  faults w WriteData = false ->
  let w' := (save_checkpoint p w).2 in
  load_checkpoint w' = (Ok (Some s), w').
Proof.
  intros Hload Ht Ho Hd. cbv zeta.
  apply typed_inv in Ht as ->.
  assert (Hr : faults w OpenRead = false).
  { destruct (faults w OpenRead) eqn:E; [|done].
    destruct (load_checkpoint_total w) as (r & Hr & Hnone).
    rewrite Hr in Hload. injection Hload as ->.
    by specialize (Hnone (or_intror (or_intror E))). }
  rewrite (save_checkpoint_ok p w Ho Hd). cbn [snd].
  by apply (load_after_save p w).
Qed.

Lemma save_after_load_witness :
  let w := world_of [] 0.5 stage_3_file in
  load_checkpoint w = (Ok (Some (stored_of at_stage_3)), w)
  ∧ load_checkpoint (save_checkpoint at_stage_3 w).2
    = (Ok (Some (stored_of at_stage_3)), (save_checkpoint at_stage_3 w).2).
Proof.
  cbv zeta.
  assert (H : load_checkpoint (world_of [] 0.5 stage_3_file)
              = (Ok (Some (stored_of at_stage_3)), world_of [] 0.5 stage_3_file))
    by reflexivity.
  split; [exact H|].
  exact (save_after_load (world_of [] 0.5 stage_3_file) (stored_of at_stage_3)
           at_stage_3 H (typed_stored_of at_stage_3) eq_refl eq_refl).
Defined.
